(** * Partial-assembly geometry cache of the kernels backend

    A shallow embedding of [KernelsGeometry] (the process-wide cache of
    nodal coordinates, Jacobians, inverse Jacobians and determinants) and
    of the host equation classes of the partial-assembly domain kernel,
    together with the properties stated about them.

    Conventions of the embedding.

    - A [double] is kept abstract: the code under study only copies doubles
      (and, in [evalD], multiplies two of them), so every statement is
      parametric in the carrier and equality is bit-for-bit identity.
    - C++ [int] counters and extents are [nat]; entries of the
      element-to-dof table are [Z], because the table is an [int] array and
      a negative entry is an index outside every array.  An index
      expression that stays inside an allocated array does not wrap, and one
      that leaves it (by wrapping or not) is undefined behaviour, which the
      embedding reports as [OutOfBounds].
    - Storage obtained from [new double[n]] or from an [Array] constructor
      is a list of cells, each [None] until it is first written; reading a
      cell that is still [None] is reported as [Uninitialised].
    - The arrays of the cache object are kept by content; the extents they
      are allocated with appear in the log of calls and allocations.  A
      call that reuses the cache object writes into the arrays an earlier
      call allocated: [cache_fits] says that they have the extents of the
      call, and is assumed where a statement depends on it.
    - Code that can fault runs in the [outcome] monad.
    - Routines of the repository that are defined in other files (the
      kernels, [SetCurvature], [GeomNeedsUpdate], [GetSimplexMaps],
      [EvalJacobians], [det]) are parameters of the sections; the
      statements hold for every choice of them. *)

From stdpp Require Import base list.
From Stdlib Require Import ZArith Lia.

Set Default Proof Using "Type".

(** ** Outcomes of fallible code *)

Inductive fault := NullDeref | OutOfBounds | Uninitialised.

Inductive outcome (A : Type) : Type :=
| Ok (a : A)
| Fault (f : fault).
Arguments Ok {A} a.
Arguments Fault {A} f.

#[global] Instance outcome_bind : MBind outcome := λ A B k m,
  match m with
  | Ok a => k a
  | Fault f => Fault f
  end.
#[global] Instance outcome_ret : MRet outcome := λ A a, Ok a.

(** [for (int i = 0; i < n; ++i) body] threading the state [s]. *)
Fixpoint for_from {St : Type} (start n : nat) (body : nat → St → outcome St)
    (s : St) : outcome St :=
  match n with
  | 0 => Ok s
  | S n' => s' ← body start s; for_from (S start) n' body s'
  end.

Definition for_loop {St : Type} (n : nat) (body : nat → St → outcome St)
    (s : St) : outcome St :=
  for_from 0 n body s.

(** ** Raw storage *)

(** Cells of an array; [None] is a cell that was never written. *)
Abbreviation cells T := (list (option T)).

Section Storage.
Context {T : Type}.

Definition alloc (n : nat) : cells T := replicate n None.

(** [a[i] = x] *)
Definition store (a : cells T) (i : nat) (x : T) : outcome (cells T) :=
  if decide (i < length a) then Ok (<[i := Some x]> a) else Fault OutOfBounds.

(** [a[i]] as an rvalue *)
Definition load (a : cells T) (i : nat) : outcome T :=
  match a !! i with
  | Some (Some x) => Ok x
  | Some None => Fault Uninitialised
  | None => Fault OutOfBounds
  end.

(** [a[i]] for an initialised array *)
Definition read (a : list T) (i : nat) : outcome T :=
  match a !! i with
  | Some x => Ok x
  | None => Fault OutOfBounds
  end.

(** [a[i]] for an initialised array and an [int] index *)
Definition readZ (a : list T) (i : Z) : outcome T :=
  if decide (0 ≤ i)%Z then read a (Z.to_nat i) else Fault OutOfBounds.

(** [a[i] = x] for an initialised array *)
Definition write (a : list T) (i : nat) (x : T) : outcome (list T) :=
  if decide (i < length a) then Ok (<[i := x]> a) else Fault OutOfBounds.

(** Reading every cell of an array in order (a whole-array copy). *)
Fixpoint load_all (a : cells T) : outcome (list T) :=
  match a with
  | [] => Ok []
  | Some x :: a' => l ← load_all a'; Ok (x :: l)
  | None :: _ => Fault Uninitialised
  end.
End Storage.

(** ** Mesh, finite element space, grid function *)

Inductive Ordering := byNODES | byVDIM.

#[global] Instance Ordering_eq_dec : EqDecision Ordering.
Proof. solve_decision. Defined.

(** What [Get] asks of a [FiniteElement]. *)
Record FiniteElement := mkFE {
  GetDim : nat;
  GetDof : nat
}.

(** What [Get] and the reorder routines ask of a [FiniteElementSpace]:
    [GetFE0] is [GetFE(0)], [e2dJ] is [GetElementToDofTable().GetJ()]. *)
Record FiniteElementSpace := mkFES {
  GetFE0 : FiniteElement;
  GetNE : nat;
  GetNDofs : nat;
  GetVDim : nat;
  GetOrdering : Ordering;
  e2dJ : list Z
}.

(** ** Calls and allocations, in program order *)

Inductive geom_array := A_meshNodes | A_eMap | A_J | A_invJ | A_detJ.

Inductive event :=
| Call_GeomNeedsUpdate (sequence : Z)
| New_KernelsGeometry
| Call_SetCurvature (order : nat) (discont : bool) (space_dim : Z)
    (ordering : Ordering)
| Allocate (a : geom_array) (extents : list nat)
| Call_rNodeCopyByVDim (elements numDofs ndofs dims : nat)
| Call_rIniGeom (dims numDofs numQuad elements : nat).

Definition is_kernel_call (ev : event) : bool :=
  match ev with
  | Call_rIniGeom _ _ _ _ => true
  | _ => false
  end.

Definition is_allocation (ev : event) : bool :=
  match ev with
  | New_KernelsGeometry | Allocate _ _ => true
  | _ => false
  end.

(** The invocation counter of the geometry kernel. *)
Definition kernel_calls (l : list event) : nat :=
  length (filter (fun ev => is_kernel_call ev) l).

(** The allocations of the cache object and of its arrays among the
    calls; the local arrays of [Get] and the scratch arrays of the reorder
    routines, made and released within every call, are not events. *)
Definition allocations (l : list event) : list event :=
  filter (fun ev => is_allocation ev) l.

Section Geometry.
Variable double : Type.

(** A grid function: its space and its data; [Size()] is the length. *)
Record GridFunction := mkGF {
  FESpace : FiniteElementSpace;
  GetData : list double
}.

Definition Size (nodes : GridFunction) : nat := length (GetData nodes).

(** *** Reordering (part_000, lines 153-198) *)

(** [for d, for v: temp[k++] = data[d+v*ndofs]], state is [(k, temp)]. *)
Definition ByVDim_fill (ndofs vdim : nat) (data : list double)
    (temp : cells double) : outcome (nat * cells double) :=
  for_loop ndofs (fun d =>
    for_loop vdim (fun v '(k, temp) =>
      x ← read data (d + v * ndofs);
      temp ← store temp k x;
      Ok (S k, temp)))
    (0, temp).

(** [for j, for i: temp[j+i*ndofs] = data[k++]], state is [(k, temp)]. *)
Definition ByNodes_fill (ndofs vdim : nat) (data : list double)
    (temp : cells double) : outcome (nat * cells double) :=
  for_loop ndofs (fun j =>
    for_loop vdim (fun i '(k, temp) =>
      x ← read data k;
      temp ← store temp (j + i * ndofs) x;
      Ok (S k, temp)))
    (0, temp).

(** [for i < size: data[i] = temp[i]] *)
Definition copy_back (size : nat) (temp : cells double)
    (data : list double) : outcome (list double) :=
  for_loop size (fun i data =>
    x ← load temp i;
    write data i x)
    data.

Definition ReorderByVDim (nodes : GridFunction) : outcome GridFunction :=
  let fes := FESpace nodes in
  let size := Size nodes in
  let vdim := GetVDim fes in
  let ndofs := GetNDofs fes in
  let data := GetData nodes in
  let temp := alloc size in
  '(_, temp) ← ByVDim_fill ndofs vdim data temp;
  data ← copy_back size temp data;
  Ok (mkGF fes data).

Definition ReorderByNodes (nodes : GridFunction) : outcome GridFunction :=
  let fes := FESpace nodes in
  let size := Size nodes in
  let vdim := GetVDim fes in
  let ndofs := GetNDofs fes in
  let data := GetData nodes in
  let temp := alloc size in
  '(_, temp) ← ByNodes_fill ndofs vdim data temp;
  data ← copy_back size temp data;
  Ok (mkGF fes data).

(** *** The cache and its environment (part_000, lines 23-150) *)

(** A quadrature point and a rule; [GetNPoints()] is the number of points. *)
Record IntegrationPoint := mkIP {
  ip_x : double;
  ip_y : double;
  ip_z : double;
  weight : double
}.

Definition IntegrationRule := list IntegrationPoint.
Definition GetNPoints (ir : IntegrationRule) : nat := length ir.

(** The field of [KernelsDofQuadMaps] that [Get] reads. *)
Record KernelsDofQuadMaps := mkMaps {
  dofToQuadD : list double
}.

(** The five arrays of the cache object, by content. *)
Record KernelsGeometry := mkGeom {
  meshNodes : list double;
  eMap : list Z;
  J : list double;
  invJ : list double;
  detJ : list double
}.

(** [new KernelsGeometry()]: nothing allocated yet. *)
Definition new_KernelsGeometry : KernelsGeometry := mkGeom [] [] [] [] [].

(** The mesh: its sequence counter, its nodal grid function if it has
    one, and the rest of it (vertices, elements, ...), which [Get] reaches
    only through [SetCurvature]. *)
Variable MeshData : Type.

Record Mesh := mkMesh {
  mesh_data : MeshData;
  GetSequence : Z;
  GetNodes : option GridFunction
}.

(** **** Routines of the repository that are defined in other files *)

(** Modelled from the spec: [config::Get()] is the library's configuration
    singleton, of which [config] is the state; [GeomNeedsUpdate] compares
    the mesh sequence with what the configuration recorded, and may update
    the record.  It is left as a parameter. *)
Variable config : Type.
Variable GeomNeedsUpdate : config → Z → bool * config.

(** Modelled from the spec: [Mesh::SetCurvature(order, discont, space_dim,
    ordering)] changes the mesh; the spec says that the mesh gains node
    storage.  It is left as a parameter. *)
Variable SetCurvature : Mesh → nat → bool → Z → Ordering → Mesh.

(** Modelled from the spec: [KernelsDofQuadMaps::GetSimplexMaps(fe, ir)]
    gives the maps of a finite element and an integration rule. *)
Variable GetSimplexMaps : FiniteElement → IntegrationRule → KernelsDofQuadMaps.

(** Modelled from the spec: the geometry kernel [rIniGeom(dims, numDofs,
    numQuad, elements, dofToQuadD, meshNodes, J, invJ, detJ)] is purely
    functional given its inputs and writes the three output arrays; the
    result is the triple of their contents. *)
Variable rIniGeom :
  nat → nat → nat → nat → list double → list double →
  list double * list double * list double.

(** Modelled from the spec: the kernel [rNodeCopyByVDim(elements, numDofs,
    ndofs, dims, eMap, Sx, meshNodes)] gathers node positions from the
    vector [Sx] into [meshNodes]; the result is the content of
    [meshNodes]. *)
Variable rNodeCopyByVDim :
  nat → nat → nat → nat → list Z → list double → list double.

(** The state [Get] works on: the file-level pointer [geom], the
    configuration singleton, the mesh behind [fes.GetFESpace()->GetMesh()]
    and the calls made so far. *)
Record World := mkWorld {
  geom : option KernelsGeometry;
  cfg : config;
  mesh : Mesh;
  log : list event
}.

(** [*p] and [p->] *)
Definition deref {A} (p : option A) : outcome A :=
  match p with
  | Some a => Ok a
  | None => Fault NullDeref
  end.

(** Lines 100-114: the gather into the local arrays. *)
Definition gather (elements numDofs dims : nat) (elementMap : list Z)
    (nodes : list double) (meshNodes : cells double) (eMap : cells Z) :
    outcome (cells double * cells Z) :=
  for_loop elements (fun e =>
    for_loop numDofs (fun d '(meshNodes, eMap) =>
      let lid := d + numDofs * e in
      gid ← read elementMap lid;
      eMap ← store eMap lid gid;
      meshNodes ← for_loop dims (fun v meshNodes =>
        let moffset := v + dims * lid in
        let xoffset := (Z.of_nat v + Z.of_nat dims * gid)%Z in
        x ← readZ nodes xoffset;
        store meshNodes moffset x) meshNodes;
      Ok (meshNodes, eMap)))
    (meshNodes, eMap).

(** Lines 79-80: [(!geom) || config::Get().GeomNeedsUpdate(...)]; the
    right operand runs only when [geom] is not [NULL]. *)
Definition geom_to_allocate (w : World) : bool * config * list event :=
  match geom w with
  | None => (true, cfg w, log w)
  | Some _ =>
      let '(b, c) := GeomNeedsUpdate (cfg w) (GetSequence (mesh w)) in
      (b, c, log w ++ [Call_GeomNeedsUpdate (GetSequence (mesh w))])
  end.

(** Line 82: [if (!mesh.GetNodes()) { mesh.SetCurvature(1, false, -1,
    Ordering::byVDIM); }] *)
Definition ensure_nodes (mesh : Mesh) : Mesh :=
  match GetNodes mesh with
  | None => SetCurvature mesh 1 false (-1) byVDIM
  | Some _ => mesh
  end.

(** Lines 74-150: [KernelsGeometry::Get(fes, ir)]. *)
Definition Get (w : World) (ir : IntegrationRule) : outcome World :=
  let '(geom_to_allocate, cfg, log) := geom_to_allocate w in
  let '(geom, log) :=
    if geom_to_allocate
    then (Some new_KernelsGeometry, log ++ [New_KernelsGeometry])
    else (geom w, log) in
  let log :=
    match GetNodes (mesh w) with
    | None => log ++ [Call_SetCurvature 1 false (-1) byVDIM]
    | Some _ => log
    end in
  let mesh := ensure_nodes (mesh w) in
  nodes ← deref (GetNodes mesh);
  let fespace := FESpace nodes in
  let fe := GetFE0 fespace in
  let dims := GetDim fe in
  let elements := GetNE fespace in
  let numDofs := GetDof fe in
  let numQuad := GetNPoints ir in
  let orderedByNODES := bool_decide (GetOrdering fespace = byNODES) in
  nodes ← (if orderedByNODES then ReorderByVDim nodes else Ok nodes);
  let asize := dims * numDofs * elements in
  let meshNodes := alloc asize in
  let elementMap := e2dJ fespace in
  let eMap := alloc (numDofs * elements) in
  '(meshNodes, eMap) ←
    gather elements numDofs dims elementMap (GetData nodes) meshNodes eMap;
  g ← deref geom;
  let log :=
    if geom_to_allocate
    then log ++ [Allocate A_meshNodes [dims; numDofs; elements];
                 Allocate A_eMap [numDofs; elements]]
    else log in
  meshNodes ← load_all meshNodes;
  eMap ← load_all eMap;
  let g := mkGeom meshNodes eMap (J g) (invJ g) (detJ g) in
  nodes ← (if orderedByNODES then ReorderByNodes nodes else Ok nodes);
  let log :=
    if geom_to_allocate
    then log ++ [Allocate A_J [dims; dims; numQuad; elements];
                 Allocate A_invJ [dims; dims; numQuad; elements];
                 Allocate A_detJ [numQuad; elements]]
    else log in
  let maps := GetSimplexMaps fe ir in
  let '(J', invJ', detJ') :=
    rIniGeom dims numDofs numQuad elements (dofToQuadD maps) (meshNodes) in
  let log := log ++ [Call_rIniGeom dims numDofs numQuad elements] in
  Ok (mkWorld (Some (mkGeom meshNodes eMap J' invJ' detJ')) cfg
        (mkMesh (mesh_data mesh) (GetSequence mesh) (Some nodes)) log).

(** Lines 42-70: [KernelsGeometry::Get(fes, ir, Sx)]. *)
Definition Get_Sx (w : World) (ir : IntegrationRule) (Sx : list double) :
    outcome World :=
  let mesh := mesh w in
  nodes ← deref (GetNodes mesh);
  let fespace := FESpace nodes in
  let fe := GetFE0 fespace in
  let dims := GetDim fe in
  let numDofs := GetDof fe in
  let numQuad := GetNPoints ir in
  let elements := GetNE fespace in
  let ndofs := GetNDofs fespace in
  let maps := GetSimplexMaps fe ir in
  g ← deref (geom w);
  let meshNodes' :=
    rNodeCopyByVDim elements numDofs ndofs dims (eMap g) Sx in
  let log := log w ++ [Call_rNodeCopyByVDim elements numDofs ndofs dims] in
  let '(J', invJ', detJ') :=
    rIniGeom dims numDofs numQuad elements (dofToQuadD maps) meshNodes' in
  let log := log ++ [Call_rIniGeom dims numDofs numQuad elements] in
  Ok (mkWorld (Some (mkGeom meshNodes' (eMap g) J' invJ' detJ')) (cfg w)
        mesh log).

(** The state of a process in which no [Get] has run: [geom] is [NULL]. *)
Definition initial_World (c : config) (m : Mesh) : World :=
  mkWorld None c m [].

(** *** Vocabulary of the statements *)

(** A nodal grid function [Get] can gather from without leaving an array:
    the buffer holds [ndofs * vdim] doubles, the element has at most
    [vdim] reference dimensions, and the element-to-dof table has an
    entry, a dof of the space, for every (local dof, element) pair. *)
Definition wf_nodes (nodes : GridFunction) : Prop :=
  let fespace := FESpace nodes in
  Size nodes = GetNDofs fespace * GetVDim fespace ∧
  GetDim (GetFE0 fespace) ≤ GetVDim fespace ∧
  GetDof (GetFE0 fespace) * GetNE fespace ≤ length (e2dJ fespace) ∧
  Forall (fun gid => (0 ≤ gid < Z.of_nat (GetNDofs fespace))%Z)
    (take (GetDof (GetFE0 fespace) * GetNE fespace) (e2dJ fespace)).

(** What the gather puts at component [v] of the pair [lid]: the entry
    [v + dims * gid] of the nodes, [gid] being the table's entry. *)
Definition gathered (elementMap : list Z) (nodes : list double)
    (dims lid v : nat) : option double :=
  gid ← elementMap !! lid;
  nodes !! Z.to_nat (Z.of_nat v + Z.of_nat dims * gid).

(** The calls and allocations of one [Get(fes, ir)], given whether the
    cache object is made anew and whether the mesh had nodes. *)
Definition Get_events (anew had_nodes : bool)
    (dims numDofs numQuad elements : nat) : list event :=
  (if anew then [New_KernelsGeometry] else []) ++
  (if had_nodes then [] else [Call_SetCurvature 1 false (-1) byVDIM]) ++
  (if anew
   then [Allocate A_meshNodes [dims; numDofs; elements];
         Allocate A_eMap [numDofs; elements];
         Allocate A_J [dims; dims; numQuad; elements];
         Allocate A_invJ [dims; dims; numQuad; elements];
         Allocate A_detJ [numQuad; elements]]
   else []) ++
  [Call_rIniGeom dims numDofs numQuad elements].

(** The cache object [Get] leaves: the gathered arrays and what the
    kernel computes from them. *)
Definition geometry_of (fe : FiniteElement) (elements : nat)
    (ir : IntegrationRule) (mn : list double) (em : list Z) : KernelsGeometry :=
  let r := rIniGeom (GetDim fe) (GetDof fe) (GetNPoints ir) elements
             (dofToQuadD (GetSimplexMaps fe ir)) mn in
  mkGeom mn em r.1.1 r.1.2 r.2.

(** The grid function as the gather sees it: transposed to by-vdim
    ordering when the space is ordered by nodes. *)
Definition nodes_for_gather (nodes : GridFunction) : outcome GridFunction :=
  if bool_decide (GetOrdering (FESpace nodes) = byNODES)
  then ReorderByVDim nodes else Ok nodes.

End Geometry.

Arguments mkGF {double}.
Arguments FESpace {double}.
Arguments GetData {double}.
Arguments Size {double}.
Arguments ReorderByVDim {double}.
Arguments ReorderByNodes {double}.
Arguments mkIP {double}.
Arguments weight {double}.
Arguments GetNPoints {double}.
Arguments mkMaps {double}.
Arguments dofToQuadD {double}.
Arguments mkGeom {double}.
Arguments meshNodes {double}.
Arguments eMap {double}.
Arguments J {double}.
Arguments invJ {double}.
Arguments detJ {double}.
Arguments new_KernelsGeometry {double}.
Arguments mkMesh {double MeshData}.
Arguments mesh_data {double MeshData}.
Arguments GetSequence {double MeshData}.
Arguments GetNodes {double MeshData}.
Arguments mkWorld {double MeshData config}.
Arguments geom {double MeshData config}.
Arguments cfg {double MeshData config}.
Arguments mesh {double MeshData config}.
Arguments log {double MeshData config}.
Arguments gather {double}.
Arguments Get {double MeshData config}.
Arguments Get_Sx {double MeshData config}.
Arguments initial_World {double MeshData config}.
Arguments geom_to_allocate {double MeshData config}.
Arguments ensure_nodes {double MeshData}.
Arguments wf_nodes {double}.
Arguments nodes_for_gather {double}.
Arguments gathered {double}.
Arguments geometry_of {double}.

(** ** Mesh Jacobians and equations of the domain kernel (part_001) *)

Section DomainKernel.
Variable double : Type.

(** Modelled from the spec: [Tensor<N>] (of tensor.hpp) is a dense
    contiguous container; a slice fixes the last index, so the first index
    varies fastest. *)
Definition offset3 (n0 n1 : nat) (i j k : nat) : nat :=
  i + n0 * (j + n1 * k).
Definition offset4 (n0 n1 n2 : nat) (i j k l : nat) : nat :=
  i + n0 * (j + n1 * (k + n2 * l)).

(** A [Tensor<2>] made by [createView(rows, cols)] and aimed by
    [setView(ptr)]: it owns nothing and points into its parent's storage,
    [v_ptr] being the offset of [ptr] there. *)
Record View2 := mkView {
  v_rows : nat;
  v_cols : nat;
  v_ptr : nat
}.

Definition createView (rows cols : nat) : View2 := mkView rows cols 0.
Definition setView (v : View2) (ptr : nat) : View2 :=
  mkView (v_rows v) (v_cols v) ptr.

(** Modelled from the spec: [dst = src] on two [Tensor<2>] copies the
    entries of [src] into the storage [dst] views. *)
Definition assign_view (dst_mem : cells double) (dst : View2)
    (src_mem : list double) (src : View2) : outcome (cells double) :=
  for_loop (v_rows dst * v_cols dst) (fun i dst_mem =>
    x ← read src_mem (v_ptr src + i);
    store dst_mem (v_ptr dst + i) x)
    dst_mem.

(** Modelled from the spec: [EvalJacobians(dim, &fes, ir_order, J1d)]
    fills the flat view [J1d] of the Jacobian tensor; the result is the
    content of the tensor, given its length. *)
Variable EvalJacobians : nat → FiniteElementSpace → nat → nat → list double.

(** [MeshJac<HostVector<double>, false, true>]: [Tensor<4> J(dim, dim,
    quads, nbElts)], kept with its extents. *)
Record MeshJac_ft := mkJac_ft {
  ft_dim : nat;
  ft_quads : nat;
  ft_nbElts : nat;
  ft_J : list double;
  ft_locJ : View2
}.

Definition MeshJac_ft_new (fes : FiniteElementSpace)
    (dim quads nbElts ir_order : nat) : MeshJac_ft :=
  let locJ := createView dim dim in
  mkJac_ft dim quads nbElts
    (EvalJacobians dim fes ir_order (dim * dim * quads * nbElts)) locJ.

(** [operator()(e, k)]: [locJ.setView(&J(0, 0, k, e))] *)
Definition MeshJac_ft_at (Jac : MeshJac_ft) (e k : nat) : View2 :=
  setView (ft_locJ Jac) (offset4 (ft_dim Jac) (ft_dim Jac) (ft_quads Jac) 0 0 k e).

(** [MeshJac<HostVector<double>, true, true>]: [Tensor<3> J(dim, dim,
    nbElts)], kept with its extents. *)
Record MeshJac_tt := mkJac_tt {
  tt_dim : nat;
  tt_nbElts : nat;
  tt_J : cells double;
  tt_locJ : View2
}.

(** The constructor; [locJ.setView(&J(0,0,i)) = Jac(i,0)] aims the
    member [locJ] at slice [i] and copies into it, so the state of the loop
    is [J] with [locJ]. *)
Definition MeshJac_tt_new (fes : FiniteElementSpace)
    (dim quads nbElts ir_order : nat) : outcome MeshJac_tt :=
  let J := alloc (dim * dim * nbElts) in
  let locJ := createView dim dim in
  let Jac := MeshJac_ft_new fes dim quads nbElts ir_order in
  '(J, locJ) ← for_loop nbElts (fun i '(J, locJ) =>
    let locJ := setView locJ (offset3 dim dim 0 0 i) in
    J ← assign_view J locJ (ft_J Jac) (MeshJac_ft_at Jac i 0);
    Ok (J, locJ)) (J, locJ);
  Ok (mkJac_tt dim nbElts J locJ).

(** [operator()(e, k)]: [locJ.setView(&J(0, 0, e))] *)
Definition MeshJac_tt_at (Jac : MeshJac_tt) (e k : nat) : View2 :=
  setView (tt_locJ Jac) (offset3 (tt_dim Jac) (tt_dim Jac) 0 0 e).

(** [Equation<Op, Vector, true, true>::getJac(e, k)]: [Jac(e, k)] *)
Definition getJac (Jac : MeshJac_tt) (e k : nat) : View2 :=
  MeshJac_tt_at Jac e k.

(** The entries a view shows of initialised storage, and of cells. *)
Definition view_entries (mem : list double) (v : View2) : list double :=
  take (v_rows v * v_cols v) (drop (v_ptr v) mem).
Definition view_cells (mem : cells double) (v : View2) : cells double :=
  take (v_rows v * v_cols v) (drop (v_ptr v) mem).

(** *** [HostMassEq] *)

(** [operator*] on doubles, and [det] on a [Tensor<2>] (of tensor.hpp),
    as parameters. *)
Variable mul : double → double → double.
Variable JTensor : Type.
Variable det : JTensor → double.
Variable ElementTransformation : Type.

Record QuadInfo := mkQuadInfo {
  qi_dim : nat;
  qi_k : nat;
  qi_e : nat;
  qi_tr : ElementTransformation;
  qi_ip : IntegrationPoint double;
  qi_J_ek : JTensor
}.

(** [QuadTensor] of a [BtDB] equation is [TensorType<0, ...>::type], a
    [double]; [evalD] assigns to it, the result is its new value. *)
Definition HostMassEq_evalD (D_ek : double) (dim k e : nat)
    (Tr : ElementTransformation) (ip : IntegrationPoint double)
    (J_ek : JTensor) : double :=
  mul (weight ip) (det J_ek).

Definition HostMassEq_evalD_info (D_ek : double) (info : QuadInfo) : double :=
  mul (weight (qi_ip info)) (det (qi_J_ek info)).

End DomainKernel.

Arguments assign_view {double}.
Arguments mkJac_ft {double}.
Arguments ft_dim {double}.
Arguments ft_quads {double}.
Arguments ft_nbElts {double}.
Arguments ft_J {double}.
Arguments ft_locJ {double}.
Arguments MeshJac_ft_new {double}.
Arguments MeshJac_ft_at {double}.
Arguments mkJac_tt {double}.
Arguments tt_dim {double}.
Arguments tt_nbElts {double}.
Arguments tt_J {double}.
Arguments tt_locJ {double}.
Arguments MeshJac_tt_new {double}.
Arguments MeshJac_tt_at {double}.
Arguments getJac {double}.
Arguments view_entries {double}.
Arguments view_cells {double}.
Arguments mkQuadInfo {double JTensor ElementTransformation}.
Arguments qi_ip {double JTensor ElementTransformation}.
Arguments qi_J_ek {double JTensor ElementTransformation}.
Arguments HostMassEq_evalD {double} mul {JTensor} det {ElementTransformation}.
Arguments HostMassEq_evalD_info {double} mul {JTensor} det {ElementTransformation}.

(** ** Extents of the cache arrays *)

(** The cache arrays hold as many entries as [allocate] gives them for an
    element of [dims] dimensions and [numDofs] dofs, a rule of [numQuad]
    points and [elements] elements (lines 119-120 and 132-134). *)
Definition cache_has_extents {double : Type} (g : KernelsGeometry double)
    (dims numDofs numQuad elements : nat) : Prop :=
  length (meshNodes g) = dims * numDofs * elements ∧
  length (eMap g) = numDofs * elements ∧
  length (J g) = dims * dims * numQuad * elements ∧
  length (invJ g) = dims * dims * numQuad * elements ∧
  length (detJ g) = numQuad * elements.

(** Two cache objects whose arrays have the same extents. *)
Definition same_extents {double : Type} (g g' : KernelsGeometry double) : Prop :=
  length (meshNodes g) = length (meshNodes g') ∧
  length (eMap g) = length (eMap g') ∧
  length (J g) = length (J g') ∧
  length (invJ g) = length (invJ g') ∧
  length (detJ g) = length (detJ g').

(** A state in which a call of [Get(fes, ir)] that reuses the cache object
    finds arrays of the extents of this call. *)
Definition cache_fits {double MeshData config : Type}
    (GeomNeedsUpdate : config → Z → bool * config)
    (w : World double MeshData config) (fe : FiniteElement) (elements : nat)
    (ir : IntegrationRule double) : Prop :=
  ∀ g, geom w = Some g →
    (geom_to_allocate GeomNeedsUpdate w).1.1 = false →
    cache_has_extents g (GetDim fe) (GetDof fe) (GetNPoints ir) elements.

(** ** Consecutive calls *)

(** [n] consecutive calls of [Get(fes, ir)], each on the state the
    previous one left. *)
Fixpoint Get_times {double MeshData config : Type}
    (GeomNeedsUpdate : config → Z → bool * config)
    (SetCurvature :
       Mesh double MeshData → nat → bool → Z → Ordering → Mesh double MeshData)
    (GetSimplexMaps :
       FiniteElement → IntegrationRule double → KernelsDofQuadMaps double)
    (rIniGeom :
       nat → nat → nat → nat → list double → list double →
       list double * list double * list double)
    (n : nat) (w : World double MeshData config) (ir : IntegrationRule double) :
    outcome (World double MeshData config) :=
  match n with
  | 0 => Ok w
  | S n' =>
      w' ← Get GeomNeedsUpdate SetCurvature GetSimplexMaps rIniGeom w ir;
      Get_times GeomNeedsUpdate SetCurvature GetSimplexMaps rIniGeom n' w' ir
  end.

(** ** A concrete mesh for the examples

    One quadrilateral with four nodes in the plane.  Doubles are named by
    integers here; the routines of the repository that are outside the
    sources read are given simple stand-ins, and the theorems below hold
    for every choice of them. *)

Definition ex_fe : FiniteElement := mkFE 2 4.

Definition ex_fes (o : Ordering) : FiniteElementSpace :=
  mkFES ex_fe 1 4 2 o [0; 1; 2; 3]%Z.

(** [x0 x1 x2 x3 y0 y1 y2 y3] *)
Definition ex_nodes_byNODES : GridFunction Z :=
  mkGF (ex_fes byNODES) [10; 11; 12; 13; 20; 21; 22; 23]%Z.

(** [x0 y0 x1 y1 x2 y2 x3 y3] *)
Definition ex_nodes_byVDIM : GridFunction Z :=
  mkGF (ex_fes byVDIM) [10; 20; 11; 21; 12; 22; 13; 23]%Z.

(** The configuration records a sequence number; the stand-in compares and
    records. *)
Definition ex_GeomNeedsUpdate (c : Z) (sequence : Z) : bool * Z :=
  (negb (c =? sequence)%Z, sequence).

(** The rest of the mesh is the list of its vertex coordinates; the
    stand-in makes them the nodes, in the ordering asked for. *)
Definition ex_SetCurvature (m : Mesh Z (list Z)) (order : nat) (discont : bool)
    (space_dim : Z) (ordering : Ordering) : Mesh Z (list Z) :=
  mkMesh (mesh_data m) (GetSequence m) (Some (mkGF (ex_fes ordering) (mesh_data m))).

Definition ex_GetSimplexMaps (fe : FiniteElement) (ir : IntegrationRule Z) :
    KernelsDofQuadMaps Z :=
  mkMaps [].

Definition ex_rIniGeom (dims numDofs numQuad elements : nat)
    (dofToQuadD meshNodes : list Z) : list Z * list Z * list Z :=
  (meshNodes, meshNodes, []).

Definition ex_rNodeCopyByVDim (elements numDofs ndofs dims : nat)
    (eMap : list Z) (Sx : list Z) : list Z :=
  Sx.

Definition ex_ir : IntegrationRule Z := [mkIP 0 0 0 1]%Z.

Definition ex_Get : World Z (list Z) Z → IntegrationRule Z → outcome (World Z (list Z) Z) :=
  Get ex_GeomNeedsUpdate ex_SetCurvature ex_GetSimplexMaps ex_rIniGeom.
Definition ex_Get_Sx :
    World Z (list Z) Z → IntegrationRule Z → list Z → outcome (World Z (list Z) Z) :=
  Get_Sx ex_GetSimplexMaps ex_rIniGeom ex_rNodeCopyByVDim.

Definition ex_mesh_byNODES : Mesh Z (list Z) :=
  mkMesh [10; 20; 11; 21; 12; 22; 13; 23]%Z 0 (Some ex_nodes_byNODES).

Definition ex_mesh_bare : Mesh Z (list Z) :=
  mkMesh [10; 20; 11; 21; 12; 22; 13; 23]%Z 0 None.

Definition ex_world0 : World Z (list Z) Z := initial_World 0%Z ex_mesh_byNODES.
Definition ex_world_bare : World Z (list Z) Z := initial_World 0%Z ex_mesh_bare.

(** A scalar field on three dofs. *)
Definition ex_nodes_scalar : GridFunction Z :=
  mkGF (mkFES (mkFE 1 2) 1 3 1 byNODES [0; 1]%Z) [5; 6; 7]%Z.

(** A [SetCurvature] that gives the mesh no nodes. *)
Definition ex_SetCurvature_none (m : Mesh Z (list Z)) (order : nat)
    (discont : bool) (space_dim : Z) (ordering : Ordering) : Mesh Z (list Z) :=
  m.

(** Another rule of one point. *)
Definition ex_ir2 : IntegrationRule Z := [mkIP 1 1 0 2]%Z.

(** A state with a cache object whose arrays have the extents of a call
    on the concrete mesh with a one-point rule, and which the stand-in
    [GeomNeedsUpdate] finds current. *)
Definition ex_world_hit : World Z (list Z) Z :=
  mkWorld (Some (mkGeom [1; 1; 1; 1; 1; 1; 1; 1] [0; 0; 0; 0]
                   [3; 3; 3; 3] [4; 4; 4; 4] [5]))%Z
    0%Z ex_mesh_byNODES [New_KernelsGeometry].

(** The stand-in numbers the entries of the Jacobian tensor. *)
Definition ex_EvalJacobians (dim : nat) (fes : FiniteElementSpace)
    (ir_order n : nat) : list Z :=
  Z.of_nat <$> seq 0 n.

(** * Proofs *)

(** ** The outcome monad and loops *)

Lemma bind_Ok {A B} (m : outcome A) (k : A → outcome B) a :
  m = Ok a → (m ≫= k) = k a.
Proof. by intros ->. Qed.

Lemma bind_Ok_inv {A B} (m : outcome A) (k : A → outcome B) b :
  (m ≫= k) = Ok b → ∃ a, m = Ok a ∧ k a = Ok b.
Proof. destruct m as [a|f]; [by exists a | done]. Qed.

(** Invariant rule for [for] loops: the body preserves [I] and does not
    fault, so the loop does not fault and ends in [I]. *)
Lemma for_from_inv {St} (I : nat → St → Prop) body n : ∀ start (s : St),
  I start s →
  (∀ i s, start ≤ i < start + n → I i s →
     ∃ s', body i s = Ok s' ∧ I (S i) s') →
  ∃ s', for_from start n body s = Ok s' ∧ I (start + n) s'.
Proof.
  induction n as [|n IH]; intros start s Hs Hbody; simpl.
  - exists s. by rewrite Nat.add_0_r.
  - destruct (Hbody start s) as (s1 & -> & Hs1); [lia | done |].
    destruct (IH (S start) s1) as (s2 & Hs2 & HI); [done | |].
    + intros i s' Hi. apply Hbody. lia.
    + exists s2. split; [done |]. by replace (start + S n) with (S start + n) by lia.
Qed.

Lemma for_loop_inv {St} (I : nat → St → Prop) body n (s : St) :
  I 0 s →
  (∀ i s, i < n → I i s → ∃ s', body i s = Ok s' ∧ I (S i) s') →
  ∃ s', for_loop n body s = Ok s' ∧ I n s'.
Proof.
  intros H0 Hbody. apply (for_from_inv I body n 0 s H0).
  intros i s' Hi. apply Hbody. lia.
Qed.

Section StorageFacts.
Context {T : Type}.
Implicit Types (a : cells T) (l : list T).

Lemma length_alloc n : length (alloc (T:=T) n) = n.
Proof. apply length_replicate. Qed.

Lemma store_Ok a i x :
  i < length a → store a i x = Ok (<[i := Some x]> a).
Proof. intros. unfold store. by rewrite decide_True. Qed.

Lemma write_Ok l i x :
  i < length l → write l i x = Ok (<[i := x]> l).
Proof. intros. unfold write. by rewrite decide_True. Qed.

Lemma read_Ok l i x : l !! i = Some x → read l i = Ok x.
Proof. intros H. unfold read. by rewrite H. Qed.

Lemma load_Ok a i x : a !! i = Some (Some x) → load a i = Ok x.
Proof. intros H. unfold load. by rewrite H. Qed.

Lemma readZ_Ok l (i : Z) x :
  (0 ≤ i)%Z → l !! Z.to_nat i = Some x → readZ l i = Ok x.
Proof. intros ? H. unfold readZ. rewrite decide_True by done. by apply read_Ok. Qed.

(** A fully initialised array is copied entry by entry. *)
Lemma load_all_Ok a l :
  a = Some <$> l → load_all a = Ok l.
Proof.
  intros ->. induction l as [|x l IH]; csimpl; [done |]. by rewrite IH.
Qed.

Lemma cells_initialised a :
  (∀ p, p < length a → ∃ x, a !! p = Some (Some x)) →
  ∃ l, a = Some <$> l.
Proof.
  induction a as [|c a IH]; intros H.
  - by exists [].
  - destruct (H 0) as [x Hx]; [simpl; lia |]. simpl in Hx.
    destruct IH as [l ->].
    + intros p Hp. apply (H (S p)). simpl. lia.
    + exists (x :: l). csimpl. congruence.
Qed.
End StorageFacts.

(** The blocked index [j + i * n] determines [j < n] and [i]. *)
Lemma blocked_index_inj n j i j' i' :
  j < n → j' < n → j + i * n = j' + i' * n → j = j' ∧ i = i'.
Proof.
  intros Hj Hj' H.
  assert (j = j') as <-.
  { apply (f_equal (fun x => x mod n)) in H.
    by rewrite !Nat.Div0.mod_add, !Nat.mod_small in H by done. }
  split; [done | nia].
Qed.

(** Every index below [n * m] is an interleaved index [d * m + v]. *)
Lemma interleaved_index n m p :
  p < n * m → ∃ d v, d < n ∧ v < m ∧ p = d * m + v.
Proof.
  intros Hp. assert (m ≠ 0) by nia.
  exists (p / m), (p mod m). split; [apply Nat.Div0.div_lt_upper_bound; lia |].
  split; [by apply Nat.mod_upper_bound |].
  rewrite (Nat.div_mod_eq p m) at 1. lia.
Qed.

(** Every index below [n * m] is a blocked index [j + i * n]. *)
Lemma blocked_index n m p :
  p < n * m → ∃ j i, j < n ∧ i < m ∧ p = j + i * n.
Proof.
  intros Hp. assert (n ≠ 0) by nia.
  exists (p mod n), (p / n). split; [by apply Nat.mod_upper_bound |].
  split; [apply Nat.Div0.div_lt_upper_bound; lia |].
  rewrite (Nat.div_mod_eq p n) at 1. lia.
Qed.

Section ReorderProofs.
Context {double : Type}.
Implicit Types (data : list double) (temp : cells double).

Lemma copy_back_spec size temp data :
  size ≤ length data →
  (∀ p, p < size → ∃ x, temp !! p = Some (Some x)) →
  ∃ data', copy_back double size temp data = Ok data' ∧
    length data' = length data ∧
    (∀ p, p < size → temp !! p = Some (data' !! p)) ∧
    (∀ p, size ≤ p → data' !! p = data !! p).
Proof.
  intros Hsz Htemp. unfold copy_back.
  destruct (for_loop_inv (fun i d => length d = length data ∧
      (∀ p, p < i → temp !! p = Some (d !! p)) ∧
      (∀ p, i ≤ p → d !! p = data !! p))
    (fun i data => x ← load temp i; write data i x) size data)
    as (d' & Hd' & HI).
  - split; [done |]. split; [intros; lia | done].
  - intros i d Hi (Hlen & Hlo & Hhi).
    destruct (Htemp i Hi) as [x Hx].
    rewrite (bind_Ok _ _ x) by by apply load_Ok.
    rewrite write_Ok by lia. eexists. split; [done |].
    rewrite length_insert. split; [done |]. split.
    + intros p Hp. destruct (decide (p = i)) as [-> |].
      * by rewrite list_lookup_insert_eq by lia.
      * rewrite list_lookup_insert_ne by done. apply Hlo. lia.
    + intros p Hp. rewrite list_lookup_insert_ne by lia. apply Hhi. lia.
  - exists d'. done.
Qed.

Lemma ByVDim_fill_spec ndofs vdim data temp :
  length data = ndofs * vdim →
  length temp = ndofs * vdim →
  ∃ temp', ByVDim_fill double ndofs vdim data temp = Ok (ndofs * vdim, temp') ∧
    length temp' = ndofs * vdim ∧
    ∀ d v, d < ndofs → v < vdim →
      temp' !! (d * vdim + v) = Some (data !! (d + v * ndofs)).
Proof.
  intros Hdata Htemp. unfold ByVDim_fill.
  set (inner := fun d => for_loop vdim _).
  destruct (for_loop_inv (fun d (s : nat * cells double) =>
      s.1 = d * vdim ∧ length s.2 = ndofs * vdim ∧
      ∀ d' v, d' < d → v < vdim →
        s.2 !! (d' * vdim + v) = Some (data !! (d' + v * ndofs)))
    inner ndofs (0, temp)) as ([k t] & Hrun & Hk & Hlen & Hall).
  - simpl. split; [lia |]. split; [done |]. intros; lia.
  - intros d [k t] Hd (Hk & Hlen & Hout). simpl in *. subst k inner.
    destruct (for_loop_inv (fun v (s : nat * cells double) =>
        s.1 = d * vdim + v ∧ length s.2 = ndofs * vdim ∧
        (∀ d' v', d' < d → v' < vdim →
          s.2 !! (d' * vdim + v') = Some (data !! (d' + v' * ndofs))) ∧
        (∀ v', v' < v →
          s.2 !! (d * vdim + v') = Some (data !! (d + v' * ndofs))))
      (fun v '(k, temp) =>
         x ← read data (d + v * ndofs); temp ← store temp k x; Ok (S k, temp))
      vdim (d * vdim, t)) as ([k' t'] & Hrun' & Hk' & Hlen' & Hout' & Hin').
    + simpl. split; [lia |]. split; [done |]. split; [done | intros; lia].
    + intros v [k1 t1] Hv (Hk1 & Hlen1 & Hout1 & Hin1). simpl in *. subst k1.
      destruct (lookup_lt_is_Some_2 data (d + v * ndofs)) as [x Hx]; [nia |].
      rewrite (bind_Ok _ _ x) by by apply read_Ok.
      rewrite store_Ok by nia. simpl. eexists. split; [done |]. simpl.
      split; [lia |]. rewrite length_insert. split; [done |]. split.
      * intros d' v' Hd' Hv'. rewrite list_lookup_insert_ne by nia. by apply Hout1.
      * intros v' Hv'. destruct (decide (v' = v)) as [-> |].
        -- rewrite list_lookup_insert_eq by nia. by rewrite Hx.
        -- rewrite list_lookup_insert_ne by nia. apply Hin1. lia.
    + exists (k', t'). split; [done |]. simpl in *. split; [lia |].
      split; [done |]. intros d' v Hd' Hv.
      destruct (decide (d' = d)) as [-> |]; [by apply Hin' |].
      apply Hout'; [lia | done].
  - simpl in *. subst k. exists t. done.
Qed.

Lemma ByNodes_fill_spec ndofs vdim data temp :
  length data = ndofs * vdim →
  length temp = ndofs * vdim →
  ∃ temp', ByNodes_fill double ndofs vdim data temp = Ok (ndofs * vdim, temp') ∧
    length temp' = ndofs * vdim ∧
    ∀ j i, j < ndofs → i < vdim →
      temp' !! (j + i * ndofs) = Some (data !! (j * vdim + i)).
Proof.
  intros Hdata Htemp. unfold ByNodes_fill.
  set (inner := fun j => for_loop vdim _).
  destruct (for_loop_inv (fun j (s : nat * cells double) =>
      s.1 = j * vdim ∧ length s.2 = ndofs * vdim ∧
      ∀ j' i, j' < j → i < vdim →
        s.2 !! (j' + i * ndofs) = Some (data !! (j' * vdim + i)))
    inner ndofs (0, temp)) as ([k t] & Hrun & Hk & Hlen & Hall).
  - simpl. split; [lia |]. split; [done |]. intros; lia.
  - intros j [k t] Hj (Hk & Hlen & Hout). simpl in *. subst k inner.
    destruct (for_loop_inv (fun i (s : nat * cells double) =>
        s.1 = j * vdim + i ∧ length s.2 = ndofs * vdim ∧
        (∀ j' i', j' < j → i' < vdim →
          s.2 !! (j' + i' * ndofs) = Some (data !! (j' * vdim + i'))) ∧
        (∀ i', i' < i →
          s.2 !! (j + i' * ndofs) = Some (data !! (j * vdim + i'))))
      (fun i '(k, temp) =>
         x ← read data k; temp ← store temp (j + i * ndofs) x; Ok (S k, temp))
      vdim (j * vdim, t)) as ([k' t'] & Hrun' & Hk' & Hlen' & Hout' & Hin').
    + simpl. split; [lia |]. split; [done |]. split; [done | intros; lia].
    + intros i [k1 t1] Hi (Hk1 & Hlen1 & Hout1 & Hin1). simpl in *. subst k1.
      destruct (lookup_lt_is_Some_2 data (j * vdim + i)) as [x Hx]; [nia |].
      rewrite (bind_Ok _ _ x) by by apply read_Ok.
      rewrite store_Ok by nia. simpl. eexists. split; [done |]. simpl.
      split; [lia |]. rewrite length_insert. split; [done |]. split.
      * intros j' i' Hj' Hi'. rewrite list_lookup_insert_ne; [by apply Hout1 |].
        intros [? _]%blocked_index_inj; lia.
      * intros i' Hi'. destruct (decide (i' = i)) as [-> |].
        -- rewrite list_lookup_insert_eq by nia. by rewrite Hx.
        -- rewrite list_lookup_insert_ne; [apply Hin1; lia |].
           intros [_ ?]%blocked_index_inj; lia.
    + exists (k', t'). split; [done |]. simpl in *. split; [lia |].
      split; [done |]. intros j' i Hj' Hi.
      destruct (decide (j' = j)) as [-> |]; [by apply Hin' |].
      apply Hout'; [lia | done].
  - simpl in *. subst k. exists t. done.
Qed.

Lemma ReorderByVDim_spec (nodes : GridFunction double) :
  let ndofs := GetNDofs (FESpace nodes) in
  let vdim := GetVDim (FESpace nodes) in
  Size nodes = ndofs * vdim →
  ∃ data', ReorderByVDim nodes = Ok (mkGF (FESpace nodes) data') ∧
    length data' = ndofs * vdim ∧
    ∀ d v, d < ndofs → v < vdim →
      data' !! (d * vdim + v) = GetData nodes !! (d + v * ndofs).
Proof.
  destruct nodes as [[fe ne ndofs vdim ord tbl] data].
  unfold ReorderByVDim, Size. cbn [FESpace GetData GetNDofs GetVDim]. intros Hsize.
  destruct (ByVDim_fill_spec ndofs vdim data
    (alloc (length data))) as (temp & -> & Hlen & Htemp);
    [done | by rewrite length_alloc |].
  destruct (copy_back_spec (ndofs * vdim) temp data)
    as (data' & Hcopy & Hlen' & Hlo & _); [lia | |].
  { intros p (d & v & Hd & Hv & ->)%interleaved_index.
    destruct (lookup_lt_is_Some_2 data (d + v * ndofs)) as [x Hx];
      [nia |].
    exists x. by rewrite Htemp, Hx. }
  cbv zeta. csimpl. rewrite Hsize, Hcopy. csimpl. exists data'.
  split; [done |]. split; [lia |]. intros d v Hd Hv.
  specialize (Hlo (d * vdim + v)). rewrite Htemp in Hlo by done.
  symmetry. apply (inj Some), Hlo. nia.
Qed.

Lemma ReorderByNodes_spec (nodes : GridFunction double) :
  let ndofs := GetNDofs (FESpace nodes) in
  let vdim := GetVDim (FESpace nodes) in
  Size nodes = ndofs * vdim →
  ∃ data', ReorderByNodes nodes = Ok (mkGF (FESpace nodes) data') ∧
    length data' = ndofs * vdim ∧
    ∀ j i, j < ndofs → i < vdim →
      data' !! (j + i * ndofs) = GetData nodes !! (j * vdim + i).
Proof.
  destruct nodes as [[fe ne ndofs vdim ord tbl] data].
  unfold ReorderByNodes, Size. cbn [FESpace GetData GetNDofs GetVDim]. intros Hsize.
  destruct (ByNodes_fill_spec ndofs vdim data
    (alloc (length data))) as (temp & -> & Hlen & Htemp);
    [done | by rewrite length_alloc |].
  destruct (copy_back_spec (ndofs * vdim) temp data)
    as (data' & Hcopy & Hlen' & Hlo & _); [lia | |].
  { intros p (j & i & Hj & Hi & ->)%blocked_index.
    destruct (lookup_lt_is_Some_2 data (j * vdim + i)) as [x Hx];
      [nia |].
    exists x. by rewrite Htemp, Hx. }
  cbv zeta. csimpl. rewrite Hsize, Hcopy. csimpl. exists data'.
  split; [done |]. split; [lia |]. intros j i Hj Hi.
  specialize (Hlo (j + i * ndofs)). rewrite Htemp in Hlo by done.
  symmetry. apply (inj Some), Hlo. nia.
Qed.

Lemma ReorderByVDim_then_ByNodes (nodes : GridFunction double) :
  Size nodes = GetNDofs (FESpace nodes) * GetVDim (FESpace nodes) →
  ∃ nodesV, ReorderByVDim nodes = Ok nodesV ∧
    FESpace nodesV = FESpace nodes ∧
    length (GetData nodesV) = length (GetData nodes) ∧
    ReorderByNodes nodesV = Ok nodes.
Proof.
  intros Hsize. destruct nodes as [fes data]. unfold Size in Hsize.
  simpl in Hsize.
  destruct (ReorderByVDim_spec (mkGF fes data)) as (d1 & -> & Hl1 & H1);
    [done |].
  exists (mkGF fes d1). split; [done |]. split; [done |].
  split; [simpl in *; lia |].
  destruct (ReorderByNodes_spec (mkGF fes d1)) as (d2 & -> & Hl2 & H2);
    [done |]. simpl in *. do 2 f_equal. apply list_eq. intros p.
  destruct (decide (p < GetNDofs fes * GetVDim fes)) as [Hp | Hp].
  - apply blocked_index in Hp as (j & i & Hj & Hi & ->).
    by rewrite H2, H1.
  - by rewrite !lookup_ge_None_2 by lia.
Qed.

Lemma ReorderByNodes_then_ByVDim (nodes : GridFunction double) :
  Size nodes = GetNDofs (FESpace nodes) * GetVDim (FESpace nodes) →
  ∃ nodesN, ReorderByNodes nodes = Ok nodesN ∧
    ReorderByVDim nodesN = Ok nodes.
Proof.
  intros Hsize. destruct nodes as [fes data]. unfold Size in Hsize.
  simpl in Hsize.
  destruct (ReorderByNodes_spec (mkGF fes data)) as (d1 & -> & Hl1 & H1);
    [done |].
  exists (mkGF fes d1). split; [done |].
  destruct (ReorderByVDim_spec (mkGF fes d1)) as (d2 & -> & Hl2 & H2);
    [done |]. simpl in *. do 2 f_equal. apply list_eq. intros p.
  destruct (decide (p < GetNDofs fes * GetVDim fes)) as [Hp | Hp].
  - apply interleaved_index in Hp as (d & v & Hd & Hv & ->).
    by rewrite H2, H1.
  - by rewrite !lookup_ge_None_2 by lia.
Qed.

(** C1. On a grid function whose buffer holds [ndofs * vdim] doubles,
    [ReorderByVDim] followed by [ReorderByNodes] returns without fault and
    restores the grid function, every element at its original value; and
    so does [ReorderByNodes] followed by [ReorderByVDim]. *)
Theorem reorder_round_trip (nodes : GridFunction double) :
  Size nodes = GetNDofs (FESpace nodes) * GetVDim (FESpace nodes) →
  (ReorderByVDim nodes ≫= ReorderByNodes) = Ok nodes ∧
  (ReorderByNodes nodes ≫= ReorderByVDim) = Ok nodes.
Proof.
  intros Hsize. split.
  - destruct (ReorderByVDim_then_ByNodes nodes Hsize) as (n & -> & _ & _ & Hn).
    exact Hn.
  - destruct (ReorderByNodes_then_ByVDim nodes Hsize) as (n & -> & Hn).
    exact Hn.
Qed.
End ReorderProofs.


(** ** The gather *)

Lemma interleaved_index_inj n v lid v' lid' :
  v < n → v' < n → v + n * lid = v' + n * lid' → v = v' ∧ lid = lid'.
Proof.
  intros Hv Hv' H. apply (blocked_index_inj n); [done | done | lia].
Qed.

Lemma to_nat_offset (v dims : nat) (gid : Z) :
  (0 ≤ gid)%Z →
  Z.to_nat (Z.of_nat v + Z.of_nat dims * gid) = v + dims * Z.to_nat gid.
Proof.
  intros. rewrite Z2Nat.inj_add, Z2Nat.inj_mul, !Nat2Z.id; lia.
Qed.

Ltac loop_inv I H :=
  match goal with
  | |- context [for_loop ?n ?b ?s] => pose proof (for_loop_inv I b n s) as H
  end.

Section GatherProofs.
Context {double : Type}.
Variables (elements numDofs dims : nat).
Variables (elementMap : list Z) (nodes : list double).

Let N := numDofs * elements.
Let asize := dims * numDofs * elements.

Hypothesis table_long : N ≤ length elementMap.
Hypothesis table_dofs : ∀ lid gid,
  lid < N → elementMap !! lid = Some gid →
  (0 ≤ gid)%Z ∧ dims * (Z.to_nat gid + 1) ≤ length nodes.

Let Inv (n : nat) (s : cells double * cells Z) : Prop :=
  length s.1 = asize ∧ length s.2 = N ∧
  (∀ lid, lid < n → s.2 !! lid = Some (elementMap !! lid)) ∧
  (∀ lid v, lid < n → v < dims →
     s.1 !! (v + dims * lid) = Some (gathered elementMap nodes dims lid v)).

Lemma gather_inv (mn0 : cells double) (em0 : cells Z) :
  length mn0 = asize → length em0 = N →
  ∃ s, gather elements numDofs dims elementMap nodes mn0 em0 = Ok s ∧ Inv N s.
Proof using table_long table_dofs.
  intros Hmn0 Hem0. unfold gather.
  loop_inv (fun e s => Inv (numDofs * e) s) Hloop.
  apply Hloop; clear Hloop.
  { unfold Inv. simpl. split; [done |]. split; [done |].
    split; intros; lia. }
  intros e s He HI.
  replace (numDofs * S e) with (numDofs + numDofs * e) by lia.
  apply (for_loop_inv (fun d s => Inv (d + numDofs * e) s)); [done |].
  clear s HI. intros d [mn em] Hd (Hlmn & Hlem & Hem & Hmn). simpl in *.
  assert (d + numDofs * e < N) as Hlid by (unfold N; nia).
  set (lid := d + numDofs * e) in *.
  destruct (lookup_lt_is_Some_2 elementMap lid) as [gid Hgid]; [lia |].
  destruct (table_dofs lid gid Hlid Hgid) as [Hgid0 Hgidn].
  rewrite (bind_Ok _ _ gid) by by apply read_Ok.
  rewrite store_Ok by lia. csimpl.
  loop_inv (fun v (m : cells double) =>
    length m = asize ∧
    (∀ lid' v', lid' < lid → v' < dims →
       m !! (v' + dims * lid') = Some (gathered elementMap nodes dims lid' v')) ∧
    (∀ v', v' < v →
       m !! (v' + dims * lid) = Some (gathered elementMap nodes dims lid v')))
    Hloop.
  destruct Hloop as (mn' & -> & Hlmn' & Hlo & Hcur).
  { split; [done |]. split; [done | intros; lia]. }
  { intros v m Hv (Hlm & Hlo & Hcur).
    destruct (lookup_lt_is_Some_2 nodes (v + dims * Z.to_nat gid)) as [x Hx];
      [nia |].
    rewrite (bind_Ok _ _ x).
    2:{ apply readZ_Ok; [lia |]. by rewrite to_nat_offset. }
    rewrite store_Ok by (unfold asize; unfold N in Hlid; nia).
    eexists. split; [done |]. rewrite length_insert. split; [done |]. split.
    - intros lid' v' Hlid' Hv'. rewrite list_lookup_insert_ne; [by apply Hlo |].
      intros [_ ?]%interleaved_index_inj; lia.
    - intros v' Hv'. destruct (decide (v' = v)) as [-> |].
      + rewrite list_lookup_insert_eq by (unfold asize; unfold N in Hlid; nia).
        unfold gathered. rewrite Hgid. csimpl. by rewrite to_nat_offset, Hx.
      + rewrite list_lookup_insert_ne; [apply Hcur; lia |].
        intros [? _]%interleaved_index_inj; lia. }
  csimpl. eexists. split; [done |]. unfold Inv. simpl.
  rewrite length_insert. split; [done |]. split; [done |]. split.
  - intros lid' Hlid'. destruct (decide (lid' = lid)) as [-> |].
    + rewrite list_lookup_insert_eq by lia. by rewrite Hgid.
    + rewrite list_lookup_insert_ne by done. apply Hem. lia.
  - intros lid' v Hlid' Hv. destruct (decide (lid' = lid)) as [-> |].
    + by apply Hcur.
    + apply Hlo; [lia | done].
Qed.

(** The gather fills both local arrays entirely: entry [lid] of [eMap]
    is the table's, entry [v + dims * lid] of [meshNodes] is the node
    component the table points at. *)
Lemma gather_spec :
  ∃ mn em,
    gather elements numDofs dims elementMap nodes (alloc asize) (alloc N)
      = Ok (Some <$> mn, Some <$> em) ∧
    length mn = asize ∧ length em = N ∧
    (∀ lid, lid < N → em !! lid = elementMap !! lid) ∧
    (∀ lid v, lid < N → v < dims →
       mn !! (v + dims * lid) = gathered elementMap nodes dims lid v).
Proof using table_long table_dofs.
  destruct (gather_inv (alloc asize) (alloc N)) as ([mnc emc] & -> & HI);
    [apply length_alloc | apply length_alloc |].
  destruct HI as (Hlmn & Hlem & Hem & Hmn). simpl in *.
  destruct (cells_initialised mnc) as [mn ->].
  { rewrite Hlmn. unfold asize. rewrite <- Nat.mul_assoc.
    intros p (v & lid & Hv & Hlid & ->)%blocked_index.
    destruct (lookup_lt_is_Some_2 elementMap lid) as [gid Hgid];
      [fold N in Hlid; lia |].
    destruct (table_dofs lid gid Hlid Hgid) as [Hgid0 Hgidn].
    destruct (lookup_lt_is_Some_2 nodes (v + dims * Z.to_nat gid)) as [x Hx];
      [nia |].
    exists x. rewrite (Nat.mul_comm lid dims), Hmn by done.
    unfold gathered. rewrite Hgid. csimpl. by rewrite to_nat_offset, Hx. }
  destruct (cells_initialised emc) as [em ->].
  { rewrite Hlem. intros p Hp.
    destruct (lookup_lt_is_Some_2 elementMap p) as [gid Hgid]; [lia |].
    exists gid. by rewrite Hem, Hgid. }
  exists mn, em. rewrite !length_fmap in *. split; [done |].
  split; [done |]. split; [done |]. split.
  - intros lid Hlid. specialize (Hem lid Hlid).
    rewrite list_lookup_fmap in Hem.
    destruct (em !! lid); csimpl in Hem; congruence.
  - intros lid v Hlid Hv. specialize (Hmn lid v Hlid Hv).
    rewrite list_lookup_fmap in Hmn.
    destruct (mn !! _); csimpl in Hmn; congruence.
Qed.
End GatherProofs.

(** ** [Get(fes, ir)] *)

Section GetProofs.
Context {double MeshData config : Type}.
Variable GeomNeedsUpdate : config → Z → bool * config.
Variable SetCurvature :
  Mesh double MeshData → nat → bool → Z → Ordering → Mesh double MeshData.
Variable GetSimplexMaps :
  FiniteElement → IntegrationRule double → KernelsDofQuadMaps double.
Variable rIniGeom :
  nat → nat → nat → nat → list double → list double →
  list double * list double * list double.

Local Abbreviation Get_ := (Get GeomNeedsUpdate SetCurvature GetSimplexMaps rIniGeom).
Local Abbreviation to_allocate := (geom_to_allocate GeomNeedsUpdate).
Local Abbreviation with_nodes := (ensure_nodes SetCurvature).
Local Abbreviation geometry := (geometry_of GetSimplexMaps rIniGeom).

Implicit Types (w : World double MeshData config) (nodes : GridFunction double).

Lemma geom_to_allocate_false w :
  (to_allocate w).1.1 = false → is_Some (geom w).
Proof.
  unfold geom_to_allocate. destruct (geom w); [by eexists |].
  simpl. done.
Qed.

Lemma nodes_for_gather_spec nodes :
  wf_nodes nodes →
  ∃ nodesV, nodes_for_gather nodes = Ok nodesV ∧
    FESpace nodesV = FESpace nodes ∧
    length (GetData nodesV) = length (GetData nodes) ∧
    (if bool_decide (GetOrdering (FESpace nodes) = byNODES)
     then ReorderByNodes nodesV else Ok nodesV) = Ok nodes.
Proof.
  intros (Hsize & _). unfold nodes_for_gather. case_bool_decide.
  - by apply ReorderByVDim_then_ByNodes.
  - by exists nodes.
Qed.

(** What one call does, on a mesh whose nodes (its own, or those
    [SetCurvature] gives it) are well formed. *)
Lemma Get_spec w ir nodes :
  GetNodes (with_nodes (mesh w)) = Some nodes →
  wf_nodes nodes →
  let fespace := FESpace nodes in
  let fe := GetFE0 fespace in
  ∃ nodesV mn em,
    nodes_for_gather nodes = Ok nodesV ∧
    gather (GetNE fespace) (GetDof fe) (GetDim fe) (e2dJ fespace)
      (GetData nodesV) (alloc (GetDim fe * GetDof fe * GetNE fespace))
      (alloc (GetDof fe * GetNE fespace)) = Ok (Some <$> mn, Some <$> em) ∧
    Get_ w ir =
      Ok (mkWorld (Some (geometry fe (GetNE fespace) ir mn em))
            (to_allocate w).1.2
            (with_nodes (mesh w))
            ((to_allocate w).2 ++
             Get_events (to_allocate w).1.1
               (bool_decide (is_Some (GetNodes (mesh w))))
               (GetDim fe) (GetDof fe) (GetNPoints ir) (GetNE fespace))).
Proof.
  intros Hnodes Hwf fespace fe.
  destruct (nodes_for_gather_spec nodes Hwf) as (nodesV & HV & Hfes & Hlen & Hback).
  destruct Hwf as (Hsize & Hdims & Htable & Hgids).
  fold fespace in Hsize, Hdims, Htable, Hgids. fold fe in Hdims, Htable, Hgids.
  destruct (gather_spec (GetNE fespace) (GetDof fe) (GetDim fe)
    (e2dJ fespace) (GetData nodesV)) as (mn & em & Hg & _); [done | |].
  { intros lid gid Hlid Hgid.
    assert ((0 ≤ gid < Z.of_nat (GetNDofs fespace))%Z) as [? ?].
    { rewrite Forall_lookup in Hgids. apply (Hgids lid).
      by rewrite lookup_take_lt. }
    split; [done |]. rewrite Hlen. unfold Size in Hsize. nia. }
  exists nodesV, mn, em. split; [done |]. split; [done |].
  unfold Get.
  pose proof (geom_to_allocate_false w) as Hsome.
  destruct (to_allocate w) as [[b c] l]. simpl in *.
  assert (∃ g, (if b then Some new_KernelsGeometry else geom w) = Some g)
    as [g Hg'].
  { destruct b; [by eexists |]. by apply Hsome. }
  replace (if b then (Some new_KernelsGeometry, l ++ [New_KernelsGeometry])
           else (geom w, l))
    with (Some g, if b then l ++ [New_KernelsGeometry] else l)
    by (destruct b; rewrite Hg'; done).
  rewrite Hnodes. csimpl. fold fespace fe.
  unfold nodes_for_gather in HV. fold fespace in HV, Hback. rewrite HV. csimpl.
  rewrite ?Hfes. fold fespace fe. rewrite Hg. csimpl.
  rewrite !(load_all_Ok _ _ eq_refl). csimpl.
  rewrite Hback. csimpl.
  unfold geometry_of. fold fe.
  destruct (rIniGeom _ _ _ _ _ _) as [[J' invJ'] detJ']. simpl.
  f_equal. f_equal.
  - unfold ensure_nodes in *.
    destruct (mesh w) as [md sq [n|]]; simpl in *; [by simplify_eq |].
    destruct (SetCurvature _ _ _ _ _); simpl in *. by simplify_eq.
  - unfold Get_events.
    destruct b, (GetNodes (mesh w)); simpl; by rewrite <- ?app_assoc.
Qed.

(** C2. On a mesh whose nodal grid function is ordered by nodes, the
    initializing-mode [Get] returns and leaves the grid function, data
    buffer included, as it was before the call, whether the cache is
    made anew or reused ([w] is any state). *)
Theorem Get_restores_nodes w ir nodes :
  GetNodes (mesh w) = Some nodes →
  GetOrdering (FESpace nodes) = byNODES →
  wf_nodes nodes →
  ∃ w', Get_ w ir = Ok w' ∧
    GetNodes (mesh w') = Some nodes ∧ mesh w' = mesh w.
Proof.
  intros Hnodes Hord Hwf.
  assert (with_nodes (mesh w) = mesh w) as Hm.
  { unfold ensure_nodes. by rewrite Hnodes. }
  destruct (Get_spec w ir nodes) as (nodesV & mn & em & _ & _ & HGet);
    [by rewrite Hm | done |].
  eexists. split; [exact HGet |]. simpl. by rewrite Hm.
Qed.

(** C4. After an initializing-mode [Get], entry [d + numDofs * e] of
    [eMap] is the entry [gid] of the element-to-dof table at that place,
    and entry [v + dims * (d + numDofs * e)] of [meshNodes] is the entry
    [v + dims * gid] of the nodes in by-vdim ordering. *)
Theorem Get_gathers w ir nodes :
  GetNodes (with_nodes (mesh w)) = Some nodes →
  wf_nodes nodes →
  let fespace := FESpace nodes in
  let elementMap := e2dJ fespace in
  let numDofs := GetDof (GetFE0 fespace) in
  let dims := GetDim (GetFE0 fespace) in
  ∃ w' g nodesV,
    Get_ w ir = Ok w' ∧ geom w' = Some g ∧
    nodes_for_gather nodes = Ok nodesV ∧
    ∀ e d, e < GetNE fespace → d < numDofs →
      ∃ gid, read elementMap (d + numDofs * e) = Ok gid ∧
        read (eMap g) (d + numDofs * e) = Ok gid ∧
        ∀ v, v < dims →
          ∃ x, readZ (GetData nodesV) (Z.of_nat v + Z.of_nat dims * gid) = Ok x ∧
            read (meshNodes g) (v + dims * (d + numDofs * e)) = Ok x.
Proof.
  intros Hnodes Hwf fespace elementMap numDofs dims.
  destruct (Get_spec w ir nodes Hnodes Hwf)
    as (nodesV & mn & em & HV & Hg & HGet).
  destruct (nodes_for_gather_spec nodes Hwf) as (nodesV' & HV' & _ & Hlen & _).
  assert (nodesV' = nodesV) as -> by congruence.
  destruct Hwf as (Hsize & Hdims & Htable & Hgids).
  fold fespace in Hsize, Hdims, Htable, Hgids, Hg, HGet.
  fold numDofs dims in Hdims, Htable, Hgids, Hg, HGet.
  fold elementMap in Htable, Hgids, Hg.
  assert (∀ lid gid, lid < numDofs * GetNE fespace →
    elementMap !! lid = Some gid →
    (0 ≤ gid)%Z ∧ dims * (Z.to_nat gid + 1) ≤ length (GetData nodesV))
    as Hdofs.
  { intros lid gid Hlid Hgid.
    assert ((0 ≤ gid < Z.of_nat (GetNDofs fespace))%Z) as [? ?].
    { rewrite Forall_lookup in Hgids. apply (Hgids lid).
      by rewrite lookup_take_lt. }
    split; [done |]. rewrite Hlen. unfold Size in Hsize. nia. }
  destruct (gather_spec (GetNE fespace) numDofs dims elementMap
    (GetData nodesV)) as (mn' & em' & Hg' & _ & _ & Hem & Hmn); [done.. |].
  assert (mn' = mn ∧ em' = em) as [-> ->].
  { assert (Ok (Some <$> mn, Some <$> em) = Ok (Some <$> mn', Some <$> em'))
      as [= H1 H2] by (etrans; [symmetry; exact Hg | exact Hg']).
    split; symmetry; eapply (inj (fmap Some)); done. }
  eexists _, _, nodesV. split; [exact HGet |]. split; [done |].
  split; [done |]. intros e d He Hd.
  assert (d + numDofs * e < numDofs * GetNE fespace) as Hlid by nia.
  destruct (lookup_lt_is_Some_2 elementMap (d + numDofs * e)) as [gid Hgid];
    [lia |].
  exists gid. split; [by apply read_Ok |]. split.
  { apply read_Ok. simpl. by rewrite Hem. }
  intros v Hv. destruct (Hdofs _ _ Hlid Hgid) as [Hgid0 Hgidn].
  destruct (lookup_lt_is_Some_2 (GetData nodesV) (v + dims * Z.to_nat gid))
    as [x Hx]; [nia |].
  exists x. split.
  - apply readZ_Ok; [lia |]. by rewrite to_nat_offset.
  - apply read_Ok. simpl. rewrite Hmn by done.
    unfold gathered. rewrite Hgid. csimpl. by rewrite to_nat_offset.
Qed.

(** C7. On a mesh without a coordinate grid function, provided
    [SetCurvature(1, false, -1, Ordering::byVDIM)] gives the mesh
    well-formed nodes, the initializing-mode [Get] does not fail: it
    calls [SetCurvature] with these arguments, the mesh keeps the nodes
    this gave it, and the cache holds the gather of those nodes and what
    the kernel computes from it. *)
Theorem Get_sets_curvature w ir nodes :
  GetNodes (mesh w) = None →
  GetNodes (SetCurvature (mesh w) 1 false (-1) byVDIM) = Some nodes →
  wf_nodes nodes →
  let fespace := FESpace nodes in
  let fe := GetFE0 fespace in
  ∃ w' nodesV mn em,
    Get_ w ir = Ok w' ∧
    Call_SetCurvature 1 false (-1) byVDIM ∈ log w' ∧
    mesh w' = SetCurvature (mesh w) 1 false (-1) byVDIM ∧
    GetNodes (mesh w') = Some nodes ∧
    nodes_for_gather nodes = Ok nodesV ∧
    gather (GetNE fespace) (GetDof fe) (GetDim fe) (e2dJ fespace)
      (GetData nodesV) (alloc (GetDim fe * GetDof fe * GetNE fespace))
      (alloc (GetDof fe * GetNE fespace)) = Ok (Some <$> mn, Some <$> em) ∧
    geom w' = Some (geometry fe (GetNE fespace) ir mn em).
Proof.
  intros Hnone Hnodes Hwf fespace fe.
  assert (with_nodes (mesh w) = SetCurvature (mesh w) 1 false (-1) byVDIM)
    as Hm.
  { unfold ensure_nodes. by rewrite Hnone. }
  destruct (Get_spec w ir nodes) as (nodesV & mn & em & HV & Hg & HGet);
    [by rewrite Hm | done |].
  eexists _, nodesV, mn, em. split; [exact HGet |]. simpl.
  rewrite Hm, Hnone. split; [| done].
  unfold Get_events. rewrite bool_decide_false by by intros [? ?].
  rewrite !elem_of_app, list_elem_of_singleton. tauto.
Qed.

(** On a state with a cache object, what [Get] does and leaves does not
    depend on what the arrays of the cache object hold. *)
Lemma Get_overwrites_cache w g g' ir nodes :
  geom w = Some g →
  GetNodes (with_nodes (mesh w)) = Some nodes →
  wf_nodes nodes →
  Get_ (mkWorld (Some g') (cfg w) (mesh w) (log w)) ir = Get_ w ir.
Proof.
  intros Hgeom Hnodes Hwf.
  destruct (Get_spec w ir nodes Hnodes Hwf)
    as (nodesV & mn & em & HV & Hg & HGet).
  destruct (Get_spec (mkWorld (Some g') (cfg w) (mesh w) (log w)) ir nodes
    Hnodes Hwf) as (nodesV' & mn' & em' & HV' & Hg' & HGet').
  assert (nodesV' = nodesV) as -> by congruence.
  assert (mn' = mn ∧ em' = em) as [-> ->].
  { assert (Ok (Some <$> mn, Some <$> em) = Ok (Some <$> mn', Some <$> em'))
      as [= H1 H2] by (etrans; [symmetry; exact Hg | exact Hg']).
    split; symmetry; eapply (inj (fmap Some)); done. }
  rewrite HGet, HGet'. unfold geom_to_allocate. simpl. by rewrite Hgeom.
Qed.

(** C3, as the code has it.  When a second initializing-mode [Get]
    follows a first one and finds the cache current ([GeomNeedsUpdate]
    answers false), the second call makes no cache object and allocates
    no cache array, but it runs the gather and the geometry kernel again:
    the cache and the mesh it leaves are those the first call left, and it
    leaves them whatever the arrays of the cache object held when it was
    called, so what it leaves is computed anew and not taken from them. *)
Theorem Get_twice w0 ir nodes w1 :
  GetNodes (with_nodes (mesh w0)) = Some nodes →
  wf_nodes nodes →
  Get_ w0 ir = Ok w1 →
  (GeomNeedsUpdate (cfg w1) (GetSequence (mesh w1))).1 = false →
  let fe := GetFE0 (FESpace nodes) in
  ∃ w2, Get_ w1 ir = Ok w2 ∧
    geom w2 = geom w1 ∧ mesh w2 = mesh w1 ∧
    log w2 = log w1 ++
      [Call_GeomNeedsUpdate (GetSequence (mesh w1));
       Call_rIniGeom (GetDim fe) (GetDof fe) (GetNPoints ir)
         (GetNE (FESpace nodes))] ∧
    allocations (log w2) = allocations (log w1) ∧
    kernel_calls (log w2) = S (kernel_calls (log w1)) ∧
    ∃ g1, geom w1 = Some g1 ∧
      ∀ g', same_extents g' g1 →
        Get_ (mkWorld (Some g') (cfg w1) (mesh w1) (log w1)) ir = Ok w2.
Proof.
  intros Hnodes Hwf Hfirst Hhit fe.
  destruct (Get_spec w0 ir nodes Hnodes Hwf)
    as (nodesV & mn & em & HV & Hg & HGet).
  rewrite HGet in Hfirst. injection Hfirst as <-.
  set (w1 := mkWorld _ _ _ _) in *.
  assert (with_nodes (mesh w1) = mesh w1) as Hm.
  { unfold ensure_nodes. simpl. by rewrite Hnodes. }
  destruct (Get_spec w1 ir nodes) as (nodesV' & mn' & em' & HV' & Hg' & HGet');
    [by rewrite Hm | done |].
  assert (nodesV' = nodesV) as -> by congruence.
  assert (mn' = mn ∧ em' = em) as [-> ->].
  { assert (Ok (Some <$> mn, Some <$> em) = Ok (Some <$> mn', Some <$> em'))
      as [= H1 H2] by (etrans; [symmetry; exact Hg | exact Hg']).
    split; symmetry; eapply (inj (fmap Some)); done. }
  assert (to_allocate w1 =
    (false, (GeomNeedsUpdate (cfg w1) (GetSequence (mesh w1))).2,
     log w1 ++ [Call_GeomNeedsUpdate (GetSequence (mesh w1))])) as Halloc.
  { unfold geom_to_allocate. simpl in *.
    destruct (GeomNeedsUpdate _ _) as [b c]. simpl in *. by subst b. }
  rewrite Halloc, Hm in HGet'. simpl in HGet'.
  rewrite (bool_decide_true (is_Some (GetNodes (with_nodes (mesh w0)))))
    in HGet' by (rewrite Hnodes; by eexists).
  eexists. split; [exact HGet' |]. simpl. split; [done |]. split; [done |].
  unfold Get_events. simpl. rewrite <- app_assoc. simpl.
  split; [done |]. unfold allocations, kernel_calls.
  rewrite !filter_app, !length_app. simpl. split; [by rewrite app_nil_r |].
  split; [lia |].
  eexists. split; [reflexivity |]. intros g' _.
  etrans.
  { apply (Get_overwrites_cache w1 _ g' ir nodes eq_refl);
      [by rewrite Hm | done]. }
  rewrite HGet'. f_equal. f_equal.
  unfold Get_events. simpl. by rewrite <- app_assoc.
Qed.
End GetProofs.

(** ** [Get(fes, ir, Sx)] *)

Section GetSxProofs.
Context {double MeshData config : Type}.
Variable GetSimplexMaps :
  FiniteElement → IntegrationRule double → KernelsDofQuadMaps double.
Variable rIniGeom :
  nat → nat → nat → nat → list double → list double →
  list double * list double * list double.
Variable rNodeCopyByVDim :
  nat → nat → nat → nat → list Z → list double → list double.

(** C9. The vector-mode [Get] dereferences [geom] whatever it is: with
    [geom] null (as it is before any initializing-mode [Get]) the call is a
    null dereference; otherwise it reads [eMap], replaces [meshNodes],
    [J], [invJ] and [detJ], and makes two kernel calls and nothing else:
    no [GeomNeedsUpdate], no allocation, the configuration untouched. *)
Theorem Get_Sx_needs_cache (w : World double MeshData config) ir Sx :
  match GetNodes (mesh w), geom w with
  | Some nodes, Some g =>
      let fespace := FESpace nodes in
      let fe := GetFE0 fespace in
      let mn := rNodeCopyByVDim (GetNE fespace) (GetDof fe)
                  (GetNDofs fespace) (GetDim fe) (eMap g) Sx in
      Get_Sx GetSimplexMaps rIniGeom rNodeCopyByVDim w ir Sx =
        Ok (mkWorld
              (Some (geometry_of GetSimplexMaps rIniGeom fe (GetNE fespace)
                       ir mn (eMap g)))
              (cfg w) (mesh w)
              (log w ++
               [Call_rNodeCopyByVDim (GetNE fespace) (GetDof fe)
                  (GetNDofs fespace) (GetDim fe);
                Call_rIniGeom (GetDim fe) (GetDof fe) (GetNPoints ir)
                  (GetNE fespace)]))
  | _, _ =>
      Get_Sx GetSimplexMaps rIniGeom rNodeCopyByVDim w ir Sx = Fault NullDeref
  end ∧
  ∀ (c : config) (m : Mesh double MeshData),
    Get_Sx GetSimplexMaps rIniGeom rNodeCopyByVDim
      (initial_World c m) ir Sx = Fault NullDeref.
Proof.
  split.
  - unfold Get_Sx, geometry_of.
    destruct (GetNodes (mesh w)) as [nodes|]; [| done].
    destruct (geom w) as [g|]; [| done]. csimpl.
    destruct (rIniGeom _ _ _ _ _ _) as [[J' invJ'] detJ']. simpl.
    by rewrite <- app_assoc.
  - intros c m. unfold Get_Sx, initial_World. simpl.
    by destruct (GetNodes m).
Qed.
End GetSxProofs.

(** ** The domain kernel's equations and mesh Jacobians *)

Section DomainKernelProofs.
Context {double : Type}.

(** C5. Both overloads of [HostMassEq::evalD] set [D_ek] to
    [ip.weight * det(J_ek)], whatever [D_ek] held and whatever the
    dimension, the point index, the element index and the transformation
    passed along are. *)
Theorem HostMassEq_evalD_weight_det
    (mul : double → double → double) {JTensor ElementTransformation : Type}
    (det : JTensor → double) (D_ek : double) (dim k e : nat)
    (Tr : ElementTransformation) (ip : IntegrationPoint double)
    (J_ek : JTensor) :
  HostMassEq_evalD mul det D_ek dim k e Tr ip J_ek
    = mul (weight ip) (det J_ek) ∧
  HostMassEq_evalD_info mul det D_ek (mkQuadInfo dim k e Tr ip J_ek)
    = mul (weight ip) (det J_ek).
Proof. split; reflexivity. Qed.

Lemma assign_view_spec (dst_mem : cells double) (src_mem : list double)
    rows cols dptr sptr :
  dptr + rows * cols ≤ length dst_mem →
  sptr + rows * cols ≤ length src_mem →
  ∃ dst_mem',
    assign_view dst_mem (mkView rows cols dptr)
      src_mem (mkView rows cols sptr) = Ok dst_mem' ∧
    length dst_mem' = length dst_mem ∧
    (∀ i, i < rows * cols →
       dst_mem' !! (dptr + i) = Some (src_mem !! (sptr + i))) ∧
    (∀ p, p < dptr ∨ dptr + rows * cols ≤ p → dst_mem' !! p = dst_mem !! p).
Proof.
  intros Hdst Hsrc. unfold assign_view. simpl.
  loop_inv (fun n (m : cells double) =>
    length m = length dst_mem ∧
    (∀ i, i < n → m !! (dptr + i) = Some (src_mem !! (sptr + i))) ∧
    (∀ p, p < dptr ∨ dptr + n ≤ p → m !! p = dst_mem !! p)) Hloop.
  apply Hloop; clear Hloop.
  { split; [done |]. split; [intros; lia | done]. }
  intros i m Hi (Hlen & Hlo & Hrest).
  destruct (lookup_lt_is_Some_2 src_mem (sptr + i)) as [x Hx]; [lia |].
  rewrite (bind_Ok _ _ x) by by apply read_Ok.
  rewrite store_Ok by lia. eexists. split; [done |].
  rewrite length_insert. split; [done |]. split.
  - intros i' Hi'. destruct (decide (i' = i)) as [-> |].
    + rewrite list_lookup_insert_eq by lia. by rewrite Hx.
    + rewrite list_lookup_insert_ne by lia. apply Hlo. lia.
  - intros p' Hp'. rewrite list_lookup_insert_ne by lia. apply Hrest. lia.
Qed.

Lemma view_of_block {A} (mem : list A) (block : list A) rows cols ptr :
  length block = rows * cols →
  (∀ i, i < rows * cols → mem !! (ptr + i) = block !! i) →
  take (rows * cols) (drop ptr mem) = block.
Proof.
  intros Hlen Hblock. apply list_eq. intros i.
  destruct (decide (i < rows * cols)) as [Hi | Hi].
  - rewrite lookup_take_lt, lookup_drop by done. by apply Hblock.
  - rewrite lookup_take_ge by lia. symmetry. apply lookup_ge_None_2. lia.
Qed.

Variable EvalJacobians : nat → FiniteElementSpace → nat → nat → list double.

(** C10. The linear-mesh [MeshJac] stores one [dim] by [dim] matrix per
    element: entry [(i, j)] of the matrix of element [e] is entry
    [(i, j, 0, e)] of the full per-quadrature-point Jacobian tensor, the
    one at quadrature point 0.  [operator()(e, k)] views the matrix of
    element [e], at [&J(0, 0, e)], whatever [k] is, and what it views is
    what the full Jacobian views at [(e, 0)]. *)
Theorem MeshJac_linear_ignores_k fes dim quads nbElts ir_order :
  0 < quads →
  length (EvalJacobians dim fes ir_order (dim * dim * quads * nbElts))
    = dim * dim * quads * nbElts →
  let full := MeshJac_ft_new EvalJacobians fes dim quads nbElts ir_order in
  ∃ Jac,
    MeshJac_tt_new EvalJacobians fes dim quads nbElts ir_order = Ok Jac ∧
    length (tt_J Jac) = dim * dim * nbElts ∧
    (∀ e, e < nbElts →
      (∀ k k', getJac Jac e k = getJac Jac e k') ∧
      (∀ k, view_cells (tt_J Jac) (getJac Jac e k)
            = Some <$> view_entries (ft_J full) (MeshJac_ft_at full e 0))) ∧
    (∀ e i j, e < nbElts → i < dim → j < dim →
      ∃ x,
        EvalJacobians dim fes ir_order (dim * dim * quads * nbElts)
          !! offset4 dim dim quads i j 0 e = Some x ∧
        tt_J Jac !! offset3 dim dim i j e = Some (Some x)) ∧
    (∀ e k, getJac Jac e k = mkView dim dim (offset3 dim dim 0 0 e)) ∧
    (0 < nbElts →
      tt_locJ Jac = mkView dim dim (offset3 dim dim 0 0 (nbElts - 1))).
Proof.
  intros Hquads Hlen full. unfold MeshJac_tt_new. fold full.
  set (src := ft_J full).
  assert (length src = dim * dim * quads * nbElts) as Hsrc by exact Hlen.
  loop_inv (fun n (s : cells double * View2) =>
    length s.1 = dim * dim * nbElts ∧
    (∀ e i, e < n → i < dim * dim →
      s.1 !! (dim * dim * e + i) = Some (src !! (dim * dim * quads * e + i))) ∧
    v_rows s.2 = dim ∧ v_cols s.2 = dim ∧
    (0 < n → s.2 = mkView dim dim (dim * dim * (n - 1))))
    Hloop.
  destruct Hloop as ([m v] & -> & Hm & Hblocks & Hrows & Hcols & Hlast).
  { simpl. split; [apply length_alloc |]. split; [intros; lia |].
    split; [done |]. split; [done | lia]. }
  { intros e [m v] He (Hm & Hblocks & Hrows & Hcols & Hlast). simpl in *.
    assert (offset3 dim dim 0 0 e = dim * dim * e) as -> by (unfold offset3; lia).
    assert (MeshJac_ft_at full e 0
            = mkView dim dim (dim * dim * quads * e)) as ->.
    { unfold MeshJac_ft_at, offset4, setView, createView. simpl. f_equal. lia. }
    unfold setView. rewrite Hrows, Hcols.
    destruct (assign_view_spec m src dim dim (dim * dim * e)
      (dim * dim * quads * e)) as (m' & -> & Hm' & Hnew & Hold); [nia | nia |].
    csimpl. eexists. split; [done |]. simpl. split; [lia |]. split.
    - intros e' i He' Hi. destruct (decide (e' = e)) as [-> |].
      + by apply Hnew.
      + rewrite Hold by nia. apply Hblocks; [lia | done].
    - split; [done |]. split; [done |]. intros _. do 2 f_equal. lia. }
  csimpl. simpl in Hm, Hblocks, Hrows, Hcols, Hlast.
  eexists. split; [done |]. simpl. split; [done |].
  assert (∀ e, offset3 dim dim 0 0 e = dim * dim * e) as Hoff3
    by (intros; unfold offset3; lia).
  split; [| split; [| split]].
  - intros e He. split; [done |]. intros k.
    unfold view_cells, view_entries, getJac, MeshJac_tt_at, MeshJac_ft_at. simpl.
    rewrite Hoff3, Hrows, Hcols. unfold offset4. fold src.
    replace (0 + dim * (0 + dim * (0 + quads * e)))
      with (dim * dim * quads * e) by lia.
    apply view_of_block.
    + rewrite length_fmap, length_take, length_drop. nia.
    + intros i Hi. rewrite Hblocks by (done || lia).
      rewrite list_lookup_fmap, lookup_take_lt, lookup_drop by (done || lia).
      destruct (lookup_lt_is_Some_2 src (dim * dim * quads * e + i)) as [x ->];
        [nia | done].
  - intros e i j He Hi Hj.
    assert (i + dim * j < dim * dim) as Hij by nia.
    destruct (lookup_lt_is_Some_2 src (dim * dim * quads * e + (i + dim * j)))
      as [x Hx]; [nia |].
    exists x. split.
    + replace (offset4 dim dim quads i j 0 e)
        with (dim * dim * quads * e + (i + dim * j)) by (unfold offset4; lia).
      exact Hx.
    + replace (offset3 dim dim i j e) with (dim * dim * e + (i + dim * j))
        by (unfold offset3; lia).
      rewrite Hblocks by done. by rewrite Hx.
  - intros e k. unfold getJac, MeshJac_tt_at, setView. simpl.
    by rewrite Hrows, Hcols.
  - intros Hn. rewrite Hoff3. by apply Hlast.
Qed.
End DomainKernelProofs.

(** ** The statements at the concrete mesh *)

Ltac wf_by_computation :=
  unfold wf_nodes; simpl; repeat split; try lia; repeat constructor; lia.

Ltac fits_by_computation :=
  let g := fresh "g" in
  let Hg := fresh "Hg" in
  let Hhit := fresh "Hhit" in
  intros g Hg Hhit;
  first [ discriminate Hg
        | injection Hg as <-; unfold cache_has_extents; simpl;
          repeat split; reflexivity ].

Lemma reorder_round_trip_witness :
  (ReorderByVDim ex_nodes_byNODES ≫= ReorderByNodes) = Ok ex_nodes_byNODES ∧
  (ReorderByNodes ex_nodes_byNODES ≫= ReorderByVDim) = Ok ex_nodes_byNODES.
Proof. apply reorder_round_trip. reflexivity. Defined.

Lemma Get_restores_nodes_witness :
  ∃ w', ex_Get ex_world0 ex_ir = Ok w' ∧
    GetNodes (mesh w') = Some ex_nodes_byNODES ∧ mesh w' = mesh ex_world0.
Proof.
  apply (Get_restores_nodes ex_GeomNeedsUpdate ex_SetCurvature
           ex_GetSimplexMaps ex_rIniGeom ex_world0 ex_ir ex_nodes_byNODES).
  - reflexivity.
  - reflexivity.
  - wf_by_computation.
Defined.

(** The state the first call leaves at the concrete mesh. *)
Lemma ex_first_Get :
  ex_Get ex_world0 ex_ir =
    Ok (mkWorld
          (Some (mkGeom [10; 20; 11; 21; 12; 22; 13; 23]%Z [0; 1; 2; 3]%Z
                   [10; 20; 11; 21; 12; 22; 13; 23]%Z
                   [10; 20; 11; 21; 12; 22; 13; 23]%Z []))
          0%Z ex_mesh_byNODES
          [New_KernelsGeometry; Allocate A_meshNodes [2; 4; 1];
           Allocate A_eMap [4; 1]; Allocate A_J [2; 2; 1; 1];
           Allocate A_invJ [2; 2; 1; 1]; Allocate A_detJ [1; 1];
           Call_rIniGeom 2 4 1 1]).
Proof. reflexivity. Qed.

(** C3 as stated fails: at the concrete mesh, a second [Get] with the
    mesh sequence unchanged, which finds the cache current and allocates
    nothing, raises the kernel's invocation counter from 1 to 2. *)
Lemma Get_twice_reruns_kernel :
  ∃ w1 w2,
    ex_Get ex_world0 ex_ir = Ok w1 ∧ ex_Get w1 ex_ir = Ok w2 ∧
    GetSequence (mesh w1) = GetSequence (mesh ex_world0) ∧
    (ex_GeomNeedsUpdate (cfg w1) (GetSequence (mesh w1))).1 = false ∧
    allocations (log w2) = allocations (log w1) ∧
    kernel_calls (log w1) = 1 ∧ kernel_calls (log w2) = 2.
Proof.
  eexists _, _. split; [exact ex_first_Get |]. split; [reflexivity |].
  repeat split.
Qed.

Lemma Get_twice_witness :
  ∃ w1 w2,
    ex_Get ex_world0 ex_ir = Ok w1 ∧ ex_Get w1 ex_ir = Ok w2 ∧
    geom w2 = geom w1 ∧ mesh w2 = mesh w1 ∧
    log w2 = log w1 ++ [Call_GeomNeedsUpdate 0; Call_rIniGeom 2 4 1 1] ∧
    allocations (log w2) = allocations (log w1) ∧
    kernel_calls (log w2) = S (kernel_calls (log w1)) ∧
    ∃ g1, geom w1 = Some g1 ∧
      ∀ g', same_extents g' g1 →
        ex_Get (mkWorld (Some g') (cfg w1) (mesh w1) (log w1)) ex_ir = Ok w2.
Proof.
  eexists _. 
  destruct (Get_twice ex_GeomNeedsUpdate ex_SetCurvature ex_GetSimplexMaps
              ex_rIniGeom ex_world0 ex_ir ex_nodes_byNODES _
              eq_refl ltac:(wf_by_computation) ex_first_Get eq_refl)
    as (w2 & H2 & Hrest).
  exists w2. split; [exact ex_first_Get |]. split; [exact H2 |]. exact Hrest.
Defined.

Lemma Get_gathers_witness :
  ∃ w' g nodesV,
    ex_Get ex_world0 ex_ir = Ok w' ∧ geom w' = Some g ∧
    nodes_for_gather ex_nodes_byNODES = Ok nodesV ∧
    ∀ e d, e < 1 → d < 4 →
      ∃ gid, read [0; 1; 2; 3]%Z (d + 4 * e) = Ok gid ∧
        read (eMap g) (d + 4 * e) = Ok gid ∧
        ∀ v, v < 2 →
          ∃ x, readZ (GetData nodesV) (Z.of_nat v + Z.of_nat 2 * gid) = Ok x ∧
            read (meshNodes g) (v + 2 * (d + 4 * e)) = Ok x.
Proof.
  apply (Get_gathers ex_GeomNeedsUpdate ex_SetCurvature ex_GetSimplexMaps
           ex_rIniGeom ex_world0 ex_ir ex_nodes_byNODES).
  - reflexivity.
  - wf_by_computation.
Defined.

Lemma Get_sets_curvature_witness :
  ∃ w' nodesV mn em,
    ex_Get ex_world_bare ex_ir = Ok w' ∧
    Call_SetCurvature 1 false (-1) byVDIM ∈ log w' ∧
    mesh w' = ex_SetCurvature ex_mesh_bare 1 false (-1) byVDIM ∧
    GetNodes (mesh w') = Some ex_nodes_byVDIM ∧
    nodes_for_gather ex_nodes_byVDIM = Ok nodesV ∧
    gather 1 4 2 [0; 1; 2; 3]%Z (GetData nodesV) (alloc 8) (alloc 4)
      = Ok (Some <$> mn, Some <$> em) ∧
    geom w' = Some (geometry_of ex_GetSimplexMaps ex_rIniGeom ex_fe 1 ex_ir mn em).
Proof.
  apply (Get_sets_curvature ex_GeomNeedsUpdate ex_SetCurvature
           ex_GetSimplexMaps ex_rIniGeom ex_world_bare ex_ir ex_nodes_byVDIM).
  - reflexivity.
  - reflexivity.
  - wf_by_computation.
Defined.

Lemma MeshJac_linear_ignores_k_witness :
  ∃ Jac,
    MeshJac_tt_new ex_EvalJacobians (ex_fes byVDIM) 2 3 2 1 = Ok Jac ∧
    length (tt_J Jac) = 2 * 2 * 2 ∧
    (∀ e, e < 2 →
      (∀ k k', getJac Jac e k = getJac Jac e k') ∧
      (∀ k, view_cells (tt_J Jac) (getJac Jac e k)
            = Some <$> view_entries
                (ft_J (MeshJac_ft_new ex_EvalJacobians (ex_fes byVDIM) 2 3 2 1))
                (MeshJac_ft_at
                   (MeshJac_ft_new ex_EvalJacobians (ex_fes byVDIM) 2 3 2 1) e 0))) ∧
    (∀ e i j, e < 2 → i < 2 → j < 2 →
      ∃ x,
        ex_EvalJacobians 2 (ex_fes byVDIM) 1 (2 * 2 * 3 * 2)
          !! offset4 2 2 3 i j 0 e = Some x ∧
        tt_J Jac !! offset3 2 2 i j e = Some (Some x)) ∧
    (∀ e k, getJac Jac e k = mkView 2 2 (offset3 2 2 0 0 e)) ∧
    (0 < 2 → tt_locJ Jac = mkView 2 2 (offset3 2 2 0 0 (2 - 1))).
Proof.
  apply (MeshJac_linear_ignores_k (double:=Z) ex_EvalJacobians
           (ex_fes byVDIM) 2 3 2 1).
  - lia.
  - reflexivity.
Defined.

(** * Further properties of the same code *)

(** ** Loops that return *)

(** Partial-correctness rule for [for] loops: when the loop returns, an
    invariant that every returning iteration preserves holds at the end. *)
Lemma for_from_post {St} (I : nat → St → Prop) body n : ∀ start (s s' : St),
  I start s →
  (∀ i s s', start ≤ i < start + n → I i s → body i s = Ok s' → I (S i) s') →
  for_from start n body s = Ok s' → I (start + n) s'.
Proof.
  induction n as [|n IH]; intros start s s' Hs Hbody Hrun; simpl in Hrun.
  - injection Hrun as <-. by rewrite Nat.add_0_r.
  - apply bind_Ok_inv in Hrun as (s1 & H1 & Hrest).
    replace (start + S n) with (S start + n) by lia.
    apply (IH (S start) s1 s'); [| | done].
    + apply (Hbody start s s1); [lia | done | done].
    + intros i t t' Hi. apply Hbody. lia.
Qed.

Lemma for_loop_post {St} (I : nat → St → Prop) body n (s s' : St) :
  I 0 s →
  (∀ i s s', i < n → I i s → body i s = Ok s' → I (S i) s') →
  for_loop n body s = Ok s' → I n s'.
Proof.
  intros H0 Hbody. apply (for_from_post I body n 0 s s' H0).
  intros i t t' Hi. apply Hbody. lia.
Qed.

Section StorageInversion.
Context {T : Type}.

Lemma store_Ok_inv (a a' : cells T) i x :
  store a i x = Ok a' → i < length a ∧ a' = <[i := Some x]> a.
Proof. unfold store. case_decide; [by intros [= <-] | done]. Qed.

Lemma write_Ok_inv (l l' : list T) i x :
  write l i x = Ok l' → i < length l ∧ l' = <[i := x]> l.
Proof. unfold write. case_decide; [by intros [= <-] | done]. Qed.

Lemma read_Ok_inv (l : list T) i x : read l i = Ok x → l !! i = Some x.
Proof. unfold read. destruct (l !! i); [by intros [= <-] | done]. Qed.

Lemma load_Ok_inv (a : cells T) i x : load a i = Ok x → a !! i = Some (Some x).
Proof. unfold load. destruct (a !! i) as [[y|]|]; [by intros [= <-] | done..]. Qed.

Lemma lookup_alloc n p : p < n → alloc (T:=T) n !! p = Some None.
Proof. intros. unfold alloc. by apply lookup_replicate_2. Qed.
End StorageInversion.

(** ** When the reorder routines return *)

Section ReorderReturns.
Context {double : Type}.
Implicit Types (data : list double) (temp : cells double).

Lemma copy_back_post size temp data data' :
  copy_back double size temp data = Ok data' →
  size ≤ length data ∧ ∀ p, p < size → ∃ x, temp !! p = Some (Some x).
Proof.
  unfold copy_back. intros Hrun.
  apply (for_loop_post (fun i d =>
    length d = length data ∧ i ≤ length data ∧
    ∀ p, p < i → ∃ x, temp !! p = Some (Some x))) in Hrun.
  - by destruct Hrun as (_ & ? & ?).
  - split; [done |]. split; [lia | intros; lia].
  - clear Hrun. intros i d d' Hi (Hlen & Hle & Hlo) Hbody.
    apply bind_Ok_inv in Hbody as (x & Hx%load_Ok_inv & [Hw ->]%write_Ok_inv).
    rewrite length_insert. split; [done |]. split; [lia |].
    intros p Hp. destruct (decide (p = i)) as [-> |]; [by exists x |].
    apply Hlo. lia.
Qed.

Lemma ByVDim_fill_post ndofs vdim data temp k temp' :
  ByVDim_fill double ndofs vdim data temp = Ok (k, temp') →
  ndofs * vdim ≤ length temp ∧
  ∀ p, ndofs * vdim ≤ p → temp' !! p = temp !! p.
Proof.
  unfold ByVDim_fill. intros Hrun.
  apply (for_loop_post (fun d (s : nat * cells double) =>
    s.1 = d * vdim ∧ length s.2 = length temp ∧ s.1 ≤ length temp ∧
    ∀ p, s.1 ≤ p → s.2 !! p = temp !! p)) in Hrun.
  - destruct Hrun as (Hk & _ & Hle & Hrest). simpl in *. subst k.
    split; [lia |]. intros p Hp. apply Hrest. lia.
  - simpl. split; [lia |]. split; [done |]. split; [lia | done].
  - clear Hrun. intros d [k0 t0] s' Hd (Hk0 & Hlen0 & Hle0 & Hrest0) Hinner.
    simpl in *. subst k0.
    apply (for_loop_post (fun v (s : nat * cells double) =>
      s.1 = d * vdim + v ∧ length s.2 = length temp ∧ s.1 ≤ length temp ∧
      ∀ p, s.1 ≤ p → s.2 !! p = temp !! p)) in Hinner.
    + destruct Hinner as (Hk & ? & ? & ?). split; [lia | done].
    + simpl. split; [lia |]. done.
    + clear Hinner. intros v [k1 t1] s1 Hv (Hk1 & Hlen1 & Hle1 & Hrest1) Hbody.
      simpl in *. subst k1.
      apply bind_Ok_inv in Hbody as (x & _ & Hbody).
      apply bind_Ok_inv in Hbody as (t2 & [Hlt ->]%store_Ok_inv & [= <-]).
      simpl. rewrite length_insert. split; [lia |]. split; [done |].
      split; [lia |]. intros p Hp.
      rewrite list_lookup_insert_ne by lia. apply Hrest1. lia.
Qed.

Lemma ByNodes_fill_post ndofs vdim data temp k temp' :
  ByNodes_fill double ndofs vdim data temp = Ok (k, temp') →
  ndofs * vdim ≤ length data ∧
  ∀ p, ndofs * vdim ≤ p → temp' !! p = temp !! p.
Proof.
  unfold ByNodes_fill. intros Hrun.
  apply (for_loop_post (fun j (s : nat * cells double) =>
    s.1 = j * vdim ∧ s.1 ≤ length data ∧
    ∀ p, ndofs * vdim ≤ p → s.2 !! p = temp !! p)) in Hrun.
  - destruct Hrun as (Hk & Hle & Hrest). simpl in *. subst k.
    split; [lia | done].
  - simpl. split; [lia |]. split; [lia | done].
  - clear Hrun. intros j [k0 t0] s' Hj (Hk0 & Hle0 & Hrest0) Hinner.
    simpl in *. subst k0.
    apply (for_loop_post (fun i (s : nat * cells double) =>
      s.1 = j * vdim + i ∧ s.1 ≤ length data ∧
      ∀ p, ndofs * vdim ≤ p → s.2 !! p = temp !! p)) in Hinner.
    + destruct Hinner as (Hk & ? & ?). split; [lia | done].
    + simpl. split; [lia |]. done.
    + clear Hinner. intros i [k1 t1] s1 Hi (Hk1 & Hle1 & Hrest1) Hbody.
      simpl in *. subst k1.
      apply bind_Ok_inv in Hbody as (x & Hx%read_Ok_inv & Hbody).
      apply bind_Ok_inv in Hbody as (t2 & [Hlt ->]%store_Ok_inv & [= <-]).
      apply lookup_lt_Some in Hx.
      simpl. split; [lia |]. split; [lia |]. intros p Hp.
      rewrite list_lookup_insert_ne by nia. by apply Hrest1.
Qed.
End ReorderReturns.

Section ReorderMore.
Context {double : Type}.
Implicit Types (nodes : GridFunction double).

Lemma ReorderByVDim_Ok_size nodes nodes' :
  ReorderByVDim nodes = Ok nodes' →
  Size nodes = GetNDofs (FESpace nodes) * GetVDim (FESpace nodes).
Proof.
  unfold ReorderByVDim, Size. intros Hrun.
  apply bind_Ok_inv in Hrun as ([k temp] & Hfill & Hrun).
  apply bind_Ok_inv in Hrun as (data' & Hcopy & _).
  apply ByVDim_fill_post in Hfill as [Hle Hrest].
  apply copy_back_post in Hcopy as [_ Hinit].
  rewrite length_alloc in Hle.
  destruct (decide (GetNDofs (FESpace nodes) * GetVDim (FESpace nodes)
                    < length (GetData nodes))) as [Hlt |]; [| lia].
  destruct (Hinit _ Hlt) as [x Hx].
  rewrite Hrest, lookup_alloc in Hx by lia. done.
Qed.

Lemma ReorderByNodes_Ok_size nodes nodes' :
  ReorderByNodes nodes = Ok nodes' →
  Size nodes = GetNDofs (FESpace nodes) * GetVDim (FESpace nodes).
Proof.
  unfold ReorderByNodes, Size. intros Hrun.
  apply bind_Ok_inv in Hrun as ([k temp] & Hfill & Hrun).
  apply bind_Ok_inv in Hrun as (data' & Hcopy & _).
  apply ByNodes_fill_post in Hfill as [Hle Hrest].
  apply copy_back_post in Hcopy as [_ Hinit].
  destruct (decide (GetNDofs (FESpace nodes) * GetVDim (FESpace nodes)
                    < length (GetData nodes))) as [Hlt |]; [| lia].
  destruct (Hinit _ Hlt) as [x Hx].
  rewrite Hrest, lookup_alloc in Hx by lia. done.
Qed.

(** X1. [ReorderByVDim] returns exactly when the buffer holds
    [ndofs * vdim] doubles: a shorter buffer is left through the scratch
    array or the data, a longer one has scratch entries that are copied
    back without ever having been written. *)
Theorem ReorderByVDim_returns_iff nodes :
  (∃ nodes', ReorderByVDim nodes = Ok nodes') ↔
  Size nodes = GetNDofs (FESpace nodes) * GetVDim (FESpace nodes).
Proof.
  split.
  - intros [nodes' H]. by eapply ReorderByVDim_Ok_size.
  - intros H. destruct (ReorderByVDim_then_ByNodes nodes H) as (n & Hn & _).
    by exists n.
Qed.

(** X2. [ReorderByNodes] returns exactly when the buffer holds
    [ndofs * vdim] doubles. *)
Theorem ReorderByNodes_returns_iff nodes :
  (∃ nodes', ReorderByNodes nodes = Ok nodes') ↔
  Size nodes = GetNDofs (FESpace nodes) * GetVDim (FESpace nodes).
Proof.
  split.
  - intros [nodes' H]. by eapply ReorderByNodes_Ok_size.
  - intros H. destruct (ReorderByNodes_then_ByVDim nodes H) as (n & Hn & _).
    by exists n.
Qed.

(** X3. Whenever [ReorderByVDim] returns, the grid function keeps its
    space and its size, and component [v] of dof [d], which was at
    [d + v * ndofs], is at [d * vdim + v]. *)
Theorem ReorderByVDim_transposes nodes nodes' :
  ReorderByVDim nodes = Ok nodes' →
  let ndofs := GetNDofs (FESpace nodes) in
  let vdim := GetVDim (FESpace nodes) in
  FESpace nodes' = FESpace nodes ∧ Size nodes' = Size nodes ∧
  ∀ d v, d < ndofs → v < vdim →
    ∃ x, read (GetData nodes) (d + v * ndofs) = Ok x ∧
         read (GetData nodes') (d * vdim + v) = Ok x.
Proof.
  intros Hrun ndofs vdim.
  pose proof (ReorderByVDim_Ok_size _ _ Hrun) as Hsize.
  destruct (ReorderByVDim_spec nodes Hsize) as (data' & Hrun' & Hlen & Hat).
  rewrite Hrun in Hrun'. injection Hrun' as ->. simpl.
  split; [done |]. split; [unfold Size in *; simpl; lia |].
  intros d v Hd Hv. unfold Size in Hsize.
  destruct (lookup_lt_is_Some_2 (GetData nodes) (d + v * ndofs)) as [x Hx];
    [fold ndofs vdim in Hsize; nia |].
  exists x. split; [by apply read_Ok |]. apply read_Ok.
  by rewrite Hat.
Qed.

(** X4. Whenever [ReorderByNodes] returns, the grid function keeps its
    space and its size, and component [i] of dof [j], which was at
    [j * vdim + i], is at [j + i * ndofs]. *)
Theorem ReorderByNodes_transposes nodes nodes' :
  ReorderByNodes nodes = Ok nodes' →
  let ndofs := GetNDofs (FESpace nodes) in
  let vdim := GetVDim (FESpace nodes) in
  FESpace nodes' = FESpace nodes ∧ Size nodes' = Size nodes ∧
  ∀ j i, j < ndofs → i < vdim →
    ∃ x, read (GetData nodes) (j * vdim + i) = Ok x ∧
         read (GetData nodes') (j + i * ndofs) = Ok x.
Proof.
  intros Hrun ndofs vdim.
  pose proof (ReorderByNodes_Ok_size _ _ Hrun) as Hsize.
  destruct (ReorderByNodes_spec nodes Hsize) as (data' & Hrun' & Hlen & Hat).
  rewrite Hrun in Hrun'. injection Hrun' as ->. simpl.
  split; [done |]. split; [unfold Size in *; simpl; lia |].
  intros j i Hj Hi. unfold Size in Hsize.
  destruct (lookup_lt_is_Some_2 (GetData nodes) (j * vdim + i)) as [x Hx];
    [fold ndofs vdim in Hsize; nia |].
  exists x. split; [by apply read_Ok |]. apply read_Ok.
  by rewrite Hat.
Qed.

(** X5. On a scalar space ([vdim = 1]) both reorders are the identity:
    the two orderings coincide. *)
Theorem Reorder_scalar_identity nodes :
  GetVDim (FESpace nodes) = 1 →
  Size nodes = GetNDofs (FESpace nodes) →
  ReorderByVDim nodes = Ok nodes ∧ ReorderByNodes nodes = Ok nodes.
Proof.
  intros Hvdim Hsize.
  assert (Size nodes = GetNDofs (FESpace nodes) * GetVDim (FESpace nodes))
    as Hsize' by (rewrite Hvdim; lia).
  destruct nodes as [fes data]. unfold Size in *. simpl in *. split.
  - destruct (ReorderByVDim_spec (mkGF fes data) Hsize')
      as (data' & -> & Hlen & Hat). simpl in *.
    do 2 f_equal. apply list_eq. intros p.
    destruct (decide (p < GetNDofs fes)) as [Hp |].
    + transitivity (data' !! (p * GetVDim fes + 0));
        [f_equal; rewrite Hvdim; lia |].
      rewrite Hat by lia. f_equal. lia.
    + by rewrite !lookup_ge_None_2 by lia.
  - destruct (ReorderByNodes_spec (mkGF fes data) Hsize')
      as (data' & -> & Hlen & Hat). simpl in *.
    do 2 f_equal. apply list_eq. intros p.
    destruct (decide (p < GetNDofs fes)) as [Hp |].
    + transitivity (data' !! (p + 0 * GetNDofs fes)); [f_equal; lia |].
      rewrite Hat by lia. f_equal. rewrite Hvdim. lia.
    + by rewrite !lookup_ge_None_2 by lia.
Qed.
End ReorderMore.

(** ** More on [Get(fes, ir)] *)

Lemma kernel_calls_app l1 l2 :
  kernel_calls (l1 ++ l2) = kernel_calls l1 + kernel_calls l2.
Proof. unfold kernel_calls. by rewrite filter_app, length_app. Qed.

Lemma allocations_app l1 l2 :
  allocations (l1 ++ l2) = allocations l1 ++ allocations l2.
Proof. unfold allocations. by rewrite filter_app. Qed.

Lemma kernel_calls_Get_events anew had_nodes dims numDofs numQuad elements :
  kernel_calls (Get_events anew had_nodes dims numDofs numQuad elements) = 1.
Proof. by destruct anew, had_nodes. Qed.

Lemma allocations_Get_events anew had_nodes dims numDofs numQuad elements :
  allocations (Get_events anew had_nodes dims numDofs numQuad elements) =
    if anew
    then [New_KernelsGeometry;
          Allocate A_meshNodes [dims; numDofs; elements];
          Allocate A_eMap [numDofs; elements];
          Allocate A_J [dims; dims; numQuad; elements];
          Allocate A_invJ [dims; dims; numQuad; elements];
          Allocate A_detJ [numQuad; elements]]
    else [].
Proof. by destruct anew, had_nodes. Qed.

Section GetMore.
Context {double MeshData config : Type}.
Variable GeomNeedsUpdate : config → Z → bool * config.
Variable SetCurvature :
  Mesh double MeshData → nat → bool → Z → Ordering → Mesh double MeshData.
Variable GetSimplexMaps :
  FiniteElement → IntegrationRule double → KernelsDofQuadMaps double.
Variable rIniGeom :
  nat → nat → nat → nat → list double → list double →
  list double * list double * list double.
Variable rNodeCopyByVDim :
  nat → nat → nat → nat → list Z → list double → list double.

Local Abbreviation Get_ := (Get GeomNeedsUpdate SetCurvature GetSimplexMaps rIniGeom).
Local Abbreviation Get_Sx_ := (Get_Sx GetSimplexMaps rIniGeom rNodeCopyByVDim).
Local Abbreviation Get_times_ :=
  (Get_times GeomNeedsUpdate SetCurvature GetSimplexMaps rIniGeom).
Local Abbreviation to_allocate := (geom_to_allocate GeomNeedsUpdate).
Local Abbreviation with_nodes := (ensure_nodes SetCurvature).
Local Abbreviation geometry := (geometry_of GetSimplexMaps rIniGeom).
Local Abbreviation Get_spec_ :=
  (Get_spec GeomNeedsUpdate SetCurvature GetSimplexMaps rIniGeom).

Implicit Types (w : World double MeshData config) (nodes : GridFunction double).

Lemma to_allocate_log w :
  (to_allocate w).2 = log w ++
    match geom w with
    | Some _ => [Call_GeomNeedsUpdate (GetSequence (mesh w))]
    | None => []
    end.
Proof.
  unfold geom_to_allocate. destruct (geom w); simpl.
  - by destruct (GeomNeedsUpdate _ _).
  - by rewrite app_nil_r.
Qed.

Lemma with_nodes_idemp m nodes :
  GetNodes (with_nodes m) = Some nodes → with_nodes (with_nodes m) = with_nodes m.
Proof. intros H. unfold ensure_nodes at 1. by rewrite H. Qed.

(** X7. Every initializing-mode [Get] on well-formed nodes, whether it
    reuses the cache or not, calls the geometry kernel exactly once; it
    executes [new KernelsGeometry] and the five [allocate] calls on the
    arrays of the cache object, with the extents of this call, exactly
    when [geom] is null or [GeomNeedsUpdate] answers true, and none of
    these six otherwise.  (The local arrays of [Get] and the scratch
    arrays of the reorder routines are made at every call; they are not
    counted here.) *)
Theorem Get_accounting w ir nodes :
  GetNodes (with_nodes (mesh w)) = Some nodes →
  wf_nodes nodes →
  let fe := GetFE0 (FESpace nodes) in
  let elements := GetNE (FESpace nodes) in
  ∃ w', Get_ w ir = Ok w' ∧
    kernel_calls (log w') = S (kernel_calls (log w)) ∧
    allocations (log w') = allocations (log w) ++
      if (to_allocate w).1.1
      then [New_KernelsGeometry;
            Allocate A_meshNodes [GetDim fe; GetDof fe; elements];
            Allocate A_eMap [GetDof fe; elements];
            Allocate A_J [GetDim fe; GetDim fe; GetNPoints ir; elements];
            Allocate A_invJ [GetDim fe; GetDim fe; GetNPoints ir; elements];
            Allocate A_detJ [GetNPoints ir; elements]]
      else [].
Proof.
  intros Hnodes Hwf fe elements.
  destruct (Get_spec_ w ir nodes Hnodes Hwf) as (nodesV & mn & em & _ & _ & HGet).
  eexists. split; [exact HGet |]. simpl.
  rewrite to_allocate_log, !kernel_calls_app, !allocations_app.
  rewrite kernel_calls_Get_events, allocations_Get_events.
  assert (∀ s, kernel_calls [Call_GeomNeedsUpdate s] = 0) as Hk by done.
  assert (∀ s, allocations [Call_GeomNeedsUpdate s] = []) as Ha by done.
  assert (kernel_calls [] = 0) as Hk0 by done.
  destruct (geom w); rewrite ?Hk, ?Hk0, ?Ha, ?app_nil_r;
    (split; [lia | reflexivity]).
Qed.

(** X8. With [geom] null the right operand of [||] is not evaluated:
    [GeomNeedsUpdate] is not called and the configuration is left as it
    was, and the call makes the cache object and allocates its arrays. *)
Theorem Get_on_null_cache w ir nodes :
  geom w = None →
  GetNodes (with_nodes (mesh w)) = Some nodes →
  wf_nodes nodes →
  let fe := GetFE0 (FESpace nodes) in
  ∃ w', Get_ w ir = Ok w' ∧ cfg w' = cfg w ∧
    log w' = log w ++
      Get_events true (bool_decide (is_Some (GetNodes (mesh w))))
        (GetDim fe) (GetDof fe) (GetNPoints ir) (GetNE (FESpace nodes)).
Proof.
  intros Hnull Hnodes Hwf fe.
  destruct (Get_spec_ w ir nodes Hnodes Hwf) as (nodesV & mn & em & _ & _ & HGet).
  eexists. split; [exact HGet |]. simpl.
  unfold geom_to_allocate. rewrite Hnull. done.
Qed.

(** X9. With a cache that [GeomNeedsUpdate] declares out of date, the call
    records the configuration [GeomNeedsUpdate] returns, makes a new cache
    object, allocates its arrays, and fills it from the mesh: nothing of
    the old cache object is kept. *)
Theorem Get_on_stale_cache w ir nodes g0 :
  geom w = Some g0 →
  (GeomNeedsUpdate (cfg w) (GetSequence (mesh w))).1 = true →
  GetNodes (with_nodes (mesh w)) = Some nodes →
  wf_nodes nodes →
  let fespace := FESpace nodes in
  let fe := GetFE0 fespace in
  ∃ w' nodesV mn em, Get_ w ir = Ok w' ∧
    cfg w' = (GeomNeedsUpdate (cfg w) (GetSequence (mesh w))).2 ∧
    log w' = log w ++
      Call_GeomNeedsUpdate (GetSequence (mesh w)) ::
      Get_events true (bool_decide (is_Some (GetNodes (mesh w))))
        (GetDim fe) (GetDof fe) (GetNPoints ir) (GetNE fespace) ∧
    nodes_for_gather nodes = Ok nodesV ∧
    gather (GetNE fespace) (GetDof fe) (GetDim fe) (e2dJ fespace)
      (GetData nodesV) (alloc (GetDim fe * GetDof fe * GetNE fespace))
      (alloc (GetDof fe * GetNE fespace)) = Ok (Some <$> mn, Some <$> em) ∧
    geom w' = Some (geometry fe (GetNE fespace) ir mn em).
Proof.
  intros Hg0 Hstale Hnodes Hwf fespace fe.
  destruct (Get_spec_ w ir nodes Hnodes Hwf) as (nodesV & mn & em & HV & Hg & HGet).
  eexists _, nodesV, mn, em. split; [exact HGet |]. simpl.
  unfold geom_to_allocate. rewrite Hg0.
  destruct (GeomNeedsUpdate _ _) as [b c]. simpl in *. subst b. simpl.
  rewrite <- app_assoc. done.
Qed.

(** X10. What an initializing-mode [Get] leaves in the cache depends on
    the mesh and the rule only: from two states with the same mesh, in
    each of which the call either makes the cache anew or reuses arrays of
    the extents of this call, whatever those arrays hold and whatever the
    configurations and call histories are, the call leaves the same cache
    contents and the same mesh. *)
Theorem Get_forgets_old_cache w1 w2 ir nodes :
  mesh w1 = mesh w2 →
  GetNodes (with_nodes (mesh w1)) = Some nodes →
  wf_nodes nodes →
  cache_fits GeomNeedsUpdate w1 (GetFE0 (FESpace nodes)) (GetNE (FESpace nodes)) ir →
  cache_fits GeomNeedsUpdate w2 (GetFE0 (FESpace nodes)) (GetNE (FESpace nodes)) ir →
  ∃ w1' w2', Get_ w1 ir = Ok w1' ∧ Get_ w2 ir = Ok w2' ∧
    geom w1' = geom w2' ∧ mesh w1' = mesh w2'.
Proof.
  intros Hmesh Hnodes Hwf _ _.
  destruct (Get_spec_ w1 ir nodes Hnodes Hwf)
    as (nodesV & mn & em & HV & Hg & HGet).
  rewrite Hmesh in Hnodes.
  destruct (Get_spec_ w2 ir nodes Hnodes Hwf)
    as (nodesV' & mn' & em' & HV' & Hg' & HGet').
  assert (nodesV' = nodesV) as -> by congruence.
  assert (mn' = mn ∧ em' = em) as [-> ->].
  { assert (Ok (Some <$> mn, Some <$> em) = Ok (Some <$> mn', Some <$> em'))
      as [= H1 H2] by (etrans; [symmetry; exact Hg | exact Hg']).
    split; symmetry; eapply (inj (fmap Some)); done. }
  eexists _, _. split; [exact HGet |]. split; [exact HGet' |]. simpl.
  by rewrite Hmesh.
Qed.

(** X11. A mesh that has nodes, in either ordering, is left exactly as it
    was by an initializing-mode [Get], which then never calls
    [SetCurvature]. *)
Theorem Get_keeps_mesh_with_nodes w ir nodes :
  GetNodes (mesh w) = Some nodes →
  wf_nodes nodes →
  ∃ w' evs, Get_ w ir = Ok w' ∧ mesh w' = mesh w ∧
    log w' = log w ++ evs ∧
    ∀ order discont space_dim ordering,
      Call_SetCurvature order discont space_dim ordering ∉ evs.
Proof.
  intros Hnodes Hwf.
  assert (with_nodes (mesh w) = mesh w) as Hm.
  { unfold ensure_nodes. by rewrite Hnodes. }
  destruct (Get_spec_ w ir nodes) as (nodesV & mn & em & _ & _ & HGet);
    [by rewrite Hm | done |].
  eexists _, _. split; [exact HGet |]. simpl. split; [done |].
  rewrite to_allocate_log, <- app_assoc. split; [done |].
  rewrite bool_decide_true by (rewrite Hnodes; by eexists).
  intros o d s ord. unfold Get_events.
  destruct (geom w), ((to_allocate w).1.1); simpl; intros Hin;
    repeat (apply elem_of_cons in Hin as [Hin | Hin]; [discriminate |]);
    by apply elem_of_nil in Hin.
Qed.

(** X12. If the mesh has no nodes and [SetCurvature] leaves it without
    nodes, the initializing-mode [Get] dereferences a null pointer. *)
Theorem Get_null_nodes w ir :
  GetNodes (mesh w) = None →
  GetNodes (SetCurvature (mesh w) 1 false (-1) byVDIM) = None →
  Get GeomNeedsUpdate SetCurvature GetSimplexMaps rIniGeom w ir
    = Fault NullDeref.
Proof.
  intros Hnone Hstill. unfold Get.
  destruct (to_allocate w) as [[b c] l].
  destruct b; simpl; unfold ensure_nodes; rewrite Hnone, Hstill; done.
Qed.
End GetMore.

(** ** How the calls compose *)

Section GetCompose.
Context {double MeshData config : Type}.
Variable GeomNeedsUpdate : config → Z → bool * config.
Variable SetCurvature :
  Mesh double MeshData → nat → bool → Z → Ordering → Mesh double MeshData.
Variable GetSimplexMaps :
  FiniteElement → IntegrationRule double → KernelsDofQuadMaps double.
Variable rIniGeom :
  nat → nat → nat → nat → list double → list double →
  list double * list double * list double.
Variable rNodeCopyByVDim :
  nat → nat → nat → nat → list Z → list double → list double.

Local Abbreviation Get_ := (Get GeomNeedsUpdate SetCurvature GetSimplexMaps rIniGeom).
Local Abbreviation Get_Sx_ := (Get_Sx GetSimplexMaps rIniGeom rNodeCopyByVDim).
Local Abbreviation Get_times_ :=
  (Get_times GeomNeedsUpdate SetCurvature GetSimplexMaps rIniGeom).
Local Abbreviation to_allocate := (geom_to_allocate GeomNeedsUpdate).
Local Abbreviation with_nodes := (ensure_nodes SetCurvature).
Local Abbreviation geometry := (geometry_of GetSimplexMaps rIniGeom).
Local Abbreviation Get_spec_ :=
  (Get_spec GeomNeedsUpdate SetCurvature GetSimplexMaps rIniGeom).

Implicit Types (w : World double MeshData config) (nodes : GridFunction double).

(** The gathered arrays, whatever the ordering of the nodes. *)
Lemma Get_gathered w ir nodes :
  GetNodes (with_nodes (mesh w)) = Some nodes →
  wf_nodes nodes →
  let fespace := FESpace nodes in
  let fe := GetFE0 fespace in
  let N := GetDof fe * GetNE fespace in
  ∃ w' nodesV mn em,
    Get_ w ir = Ok w' ∧
    geom w' = Some (geometry fe (GetNE fespace) ir mn em) ∧
    mesh w' = with_nodes (mesh w) ∧
    nodes_for_gather nodes = Ok nodesV ∧
    length (GetData nodesV) = length (GetData nodes) ∧
    length mn = GetDim fe * N ∧ length em = N ∧
    (∀ lid, lid < N → em !! lid = e2dJ fespace !! lid) ∧
    (∀ lid v, lid < N → v < GetDim fe →
       mn !! (v + GetDim fe * lid)
       = gathered (e2dJ fespace) (GetData nodesV) (GetDim fe) lid v).
Proof.
  intros Hnodes Hwf fespace fe N.
  destruct (Get_spec_ w ir nodes Hnodes Hwf)
    as (nodesV & mn & em & HV & Hg & HGet).
  destruct (nodes_for_gather_spec nodes Hwf) as (nodesV' & HV' & _ & Hlen & _).
  assert (nodesV' = nodesV) as -> by congruence.
  destruct Hwf as (Hsize & Hdims & Htable & Hgids).
  fold fespace fe in Hsize, Hdims, Htable, Hgids.
  destruct (gather_spec (GetNE fespace) (GetDof fe) (GetDim fe) (e2dJ fespace)
    (GetData nodesV)) as (mn' & em' & Hg' & Hlmn & Hlem & Hem & Hmn); [done | |].
  { intros lid gid Hlid Hgid.
    assert ((0 ≤ gid < Z.of_nat (GetNDofs fespace))%Z) as [? ?].
    { rewrite Forall_lookup in Hgids. apply (Hgids lid).
      by rewrite lookup_take_lt. }
    split; [done |]. rewrite Hlen. unfold Size in Hsize. nia. }
  assert (mn' = mn ∧ em' = em) as [-> ->].
  { assert (Ok (Some <$> mn, Some <$> em) = Ok (Some <$> mn', Some <$> em'))
      as [= H1 H2] by (etrans; [symmetry; exact Hg | exact Hg']).
    split; symmetry; eapply (inj (fmap Some)); done. }
  eexists _, nodesV, mn, em. split; [exact HGet |]. simpl.
  repeat (split; [done || (unfold N; lia) |]). done.
Qed.

(** X13. An initializing-mode [Get] that makes the cache anew, or reuses
    arrays of the extents of the call, establishes what the vector-mode
    [Get] needs: called next with a rule of as many points and a vector
    of the size of the nodes, the vector-mode [Get] returns; it keeps
    [eMap], the mesh and the configuration, and puts in [meshNodes] what
    [rNodeCopyByVDim] makes of [eMap] and the vector. *)
Theorem Get_then_Get_Sx w ir ir' Sx nodes :
  GetNodes (with_nodes (mesh w)) = Some nodes →
  wf_nodes nodes →
  cache_fits GeomNeedsUpdate w (GetFE0 (FESpace nodes)) (GetNE (FESpace nodes)) ir →
  GetNPoints ir' = GetNPoints ir →
  length Sx = Size nodes →
  let fespace := FESpace nodes in
  let fe := GetFE0 fespace in
  ∃ w1 g1 w2 g2,
    Get_ w ir = Ok w1 ∧ geom w1 = Some g1 ∧
    Get_Sx_ w1 ir' Sx = Ok w2 ∧ geom w2 = Some g2 ∧
    mesh w2 = mesh w1 ∧ cfg w2 = cfg w1 ∧
    eMap g2 = eMap g1 ∧
    meshNodes g2 = rNodeCopyByVDim (GetNE fespace) (GetDof fe)
                     (GetNDofs fespace) (GetDim fe) (eMap g1) Sx.
Proof.
  intros Hnodes Hwf _ _ _ fespace fe.
  destruct (Get_spec_ w ir nodes Hnodes Hwf) as (nodesV & mn & em & _ & _ & HGet).
  set (w1 := mkWorld _ _ _ _) in *.
  pose (g1 := geometry fe (GetNE fespace) ir mn em).
  assert (∃ w2 g2, Get_Sx_ w1 ir' Sx = Ok w2 ∧ geom w2 = Some g2 ∧
    mesh w2 = mesh w1 ∧ cfg w2 = cfg w1 ∧ eMap g2 = eMap g1 ∧
    meshNodes g2 = rNodeCopyByVDim (GetNE fespace) (GetDof fe)
                     (GetNDofs fespace) (GetDim fe) (eMap g1) Sx)
    as (w2 & g2 & H2).
  { unfold Get_Sx. simpl. rewrite Hnodes. csimpl. fold fespace fe.
    destruct (rIniGeom _ _ _ _ _ (rNodeCopyByVDim _ _ _ _ _ _))
      as [[J' invJ'] detJ'].
    eexists _, _. split; [reflexivity |]. split; [reflexivity |]. done. }
  exists w1, g1, w2, g2. split; [exact HGet |]. split; [reflexivity |]. exact H2.
Qed.

(** X14. When an initializing-mode [Get] makes the cache anew, or reuses
    arrays of the extents of the call, the arrays it leaves are filled to
    those extents: [meshNodes] holds [dims * numDofs * elements] doubles,
    and [eMap] is the first [numDofs * elements] entries of the
    element-to-dof table. *)
Theorem Get_shapes w ir nodes :
  GetNodes (with_nodes (mesh w)) = Some nodes →
  wf_nodes nodes →
  cache_fits GeomNeedsUpdate w (GetFE0 (FESpace nodes)) (GetNE (FESpace nodes)) ir →
  let fespace := FESpace nodes in
  let fe := GetFE0 fespace in
  ∃ w' g, Get_ w ir = Ok w' ∧ geom w' = Some g ∧
    length (meshNodes g) = GetDim fe * GetDof fe * GetNE fespace ∧
    eMap g = take (GetDof fe * GetNE fespace) (e2dJ fespace).
Proof.
  intros Hnodes Hwf _ fespace fe.
  destruct (Get_gathered w ir nodes Hnodes Hwf)
    as (w' & nodesV & mn & em & HGet & Hgeom & _ & _ & _ & Hlmn & Hlem & Hem & _).
  exists w'. eexists. split; [done |]. split; [exact Hgeom |]. simpl.
  fold fespace fe in Hlmn, Hlem, Hem. split; [lia |].
  apply list_eq. intros i.
  destruct (decide (i < GetDof fe * GetNE fespace)) as [Hi |].
  - rewrite lookup_take_lt by done. by apply Hem.
  - rewrite lookup_take_ge by lia. apply lookup_ge_None_2. lia.
Qed.

(** X15. When the element has as many reference dimensions as the space
    has components, the cached coordinates do not depend on the ordering
    of the grid function: entry [v + dims * (d + numDofs * e)] of
    [meshNodes] is component [v] of dof [gid] of the grid function as it
    was given, read at [gid + v * ndofs] when it is ordered by nodes and
    at [v + dims * gid] when it is ordered by vdim. *)
Theorem Get_ordering_transparent w ir nodes :
  GetNodes (with_nodes (mesh w)) = Some nodes →
  wf_nodes nodes →
  let fespace := FESpace nodes in
  let numDofs := GetDof (GetFE0 fespace) in
  let dims := GetDim (GetFE0 fespace) in
  dims = GetVDim fespace →
  ∃ w' g, Get_ w ir = Ok w' ∧ geom w' = Some g ∧
    ∀ e d v, e < GetNE fespace → d < numDofs → v < dims →
      ∃ gid x, read (e2dJ fespace) (d + numDofs * e) = Ok gid ∧
        readZ (GetData nodes)
          (if bool_decide (GetOrdering fespace = byNODES)
           then gid + Z.of_nat v * Z.of_nat (GetNDofs fespace)
           else Z.of_nat v + Z.of_nat dims * gid)%Z = Ok x ∧
        read (meshNodes g) (v + dims * (d + numDofs * e)) = Ok x.
Proof.
  intros Hnodes Hwf fespace numDofs dims Hdv.
  destruct (Get_gathered w ir nodes Hnodes Hwf)
    as (w' & nodesV & mn & em & HGet & Hgeom & _ & HV & Hlen & _ & _ & _ & Hmn).
  exists w'. eexists. split; [done |]. split; [exact Hgeom |]. simpl.
  destruct Hwf as (Hsize & Hdims & Htable & Hgids).
  fold fespace in Hsize, Hdims, Htable, Hgids, Hmn.
  fold numDofs dims in Hdims, Htable, Hgids, Hmn. unfold Size in Hsize.
  intros e d v He Hd Hv.
  assert (d + numDofs * e < numDofs * GetNE fespace) as Hlid by nia.
  destruct (lookup_lt_is_Some_2 (e2dJ fespace) (d + numDofs * e))
    as [gid Hgid]; [lia |].
  assert ((0 ≤ gid < Z.of_nat (GetNDofs fespace))%Z) as [Hg0 Hgn].
  { rewrite Forall_lookup in Hgids. apply (Hgids (d + numDofs * e)).
    by rewrite lookup_take_lt. }
  pose proof (Hmn _ v Hlid Hv) as Hcell. unfold gathered in Hcell.
  rewrite Hgid in Hcell. csimpl in Hcell.
  rewrite to_nat_offset in Hcell by done.
  unfold nodes_for_gather in HV. fold fespace in HV.
  destruct (bool_decide (GetOrdering fespace = byNODES)).
  - destruct (ReorderByVDim_spec nodes Hsize) as (data' & HV' & _ & Hat).
    rewrite HV in HV'. injection HV' as ->. simpl in Hcell.
    fold fespace in Hat.
    destruct (lookup_lt_is_Some_2 (GetData nodes)
      (Z.to_nat gid + v * GetNDofs fespace)) as [x Hx]; [nia |].
    exists gid, x. split; [by apply read_Ok |]. split.
    + apply readZ_Ok; [nia |].
      by rewrite Z2Nat.inj_add, Z2Nat.inj_mul, !Nat2Z.id by nia.
    + apply read_Ok. unfold geometry_of. simpl. rewrite Hcell.
      replace (v + dims * Z.to_nat gid)
        with (Z.to_nat gid * GetVDim fespace + v) by (rewrite Hdv; lia).
      rewrite Hat by lia. done.
  - injection HV as <-.
    destruct (lookup_lt_is_Some_2 (GetData nodes) (v + dims * Z.to_nat gid))
      as [x Hx]; [nia |].
    exists gid, x. split; [by apply read_Ok |]. split.
    + apply readZ_Ok; [nia |]. by rewrite to_nat_offset.
    + apply read_Ok. unfold geometry_of. simpl. by rewrite Hcell.
Qed.

(** X16. The cache is keyed by the mesh sequence alone, not by the rule.
    When a second initializing-mode [Get] is given another integration
    rule with as many points as the first and [GeomNeedsUpdate] answers
    false, no cache array is allocated again, and yet nothing of the first
    rule is left: the kernel is called with the maps of the new rule,
    [J], [invJ] and [detJ] are what it computes from them, and the
    gathered arrays are those of the first call. *)
Theorem Get_other_rule w0 ir1 ir2 nodes w1 :
  GetNodes (with_nodes (mesh w0)) = Some nodes →
  wf_nodes nodes →
  cache_fits GeomNeedsUpdate w0 (GetFE0 (FESpace nodes)) (GetNE (FESpace nodes)) ir1 →
  GetNPoints ir2 = GetNPoints ir1 →
  Get_ w0 ir1 = Ok w1 →
  (GeomNeedsUpdate (cfg w1) (GetSequence (mesh w1))).1 = false →
  let fe := GetFE0 (FESpace nodes) in
  ∃ w2 g1 g2, Get_ w1 ir2 = Ok w2 ∧
    geom w1 = Some g1 ∧ geom w2 = Some g2 ∧
    allocations (log w2) = allocations (log w1) ∧
    log w2 = log w1 ++
      [Call_GeomNeedsUpdate (GetSequence (mesh w1));
       Call_rIniGeom (GetDim fe) (GetDof fe) (GetNPoints ir2)
         (GetNE (FESpace nodes))] ∧
    meshNodes g2 = meshNodes g1 ∧ eMap g2 = eMap g1 ∧
    (J g2, invJ g2, detJ g2) =
      rIniGeom (GetDim fe) (GetDof fe) (GetNPoints ir2) (GetNE (FESpace nodes))
        (dofToQuadD (GetSimplexMaps fe ir2)) (meshNodes g1).
Proof.
  intros Hnodes Hwf _ _ Hfirst Hhit fe.
  destruct (Get_spec_ w0 ir1 nodes Hnodes Hwf)
    as (nodesV & mn & em & HV & Hg & HGet).
  rewrite HGet in Hfirst. injection Hfirst as <-.
  set (w1 := mkWorld _ _ _ _) in *.
  assert (with_nodes (mesh w1) = mesh w1) as Hm.
  { unfold ensure_nodes. simpl. by rewrite Hnodes. }
  destruct (Get_spec_ w1 ir2 nodes) as (nodesV' & mn' & em' & HV' & Hg' & HGet');
    [by rewrite Hm | done |].
  assert (nodesV' = nodesV) as -> by congruence.
  assert (mn' = mn ∧ em' = em) as [-> ->].
  { assert (Ok (Some <$> mn, Some <$> em) = Ok (Some <$> mn', Some <$> em'))
      as [= H1 H2] by (etrans; [symmetry; exact Hg | exact Hg']).
    split; symmetry; eapply (inj (fmap Some)); done. }
  assert (to_allocate w1 =
    (false, (GeomNeedsUpdate (cfg w1) (GetSequence (mesh w1))).2,
     log w1 ++ [Call_GeomNeedsUpdate (GetSequence (mesh w1))])) as Halloc.
  { unfold geom_to_allocate. simpl in *.
    destruct (GeomNeedsUpdate _ _) as [b c]. simpl in *. by subst b. }
  rewrite Halloc, Hm in HGet'. simpl in HGet'.
  rewrite (bool_decide_true (is_Some (GetNodes (with_nodes (mesh w0)))))
    in HGet' by (rewrite Hnodes; by eexists).
  eexists _, _, _. split; [exact HGet' |]. simpl.
  split; [done |]. split; [done |].
  unfold Get_events. simpl. rewrite <- app_assoc. simpl.
  split.
  { rewrite !allocations_app. change (allocations [_; _]) with (@nil event).
    by rewrite app_nil_r. }
  split; [done |]. split; [done |]. split; [done |].
  by destruct (rIniGeom _ _ _ _ _ _) as [[? ?] ?].
Qed.

End GetCompose.

(** ** The linear mesh Jacobian without quadrature points *)

Section MeshJacEdge.
Context {double : Type}.
Variable EvalJacobians : nat → FiniteElementSpace → nat → nat → list double.

(** X18. With a rule of no points, on a mesh with elements and a positive
    dimension, the constructor of the linear-mesh [MeshJac] reads
    [Jac(0, 0)] outside the (empty) full Jacobian tensor. *)
Theorem MeshJac_linear_no_points fes dim nbElts ir_order :
  0 < dim → 0 < nbElts →
  length (EvalJacobians dim fes ir_order (dim * dim * 0 * nbElts)) = 0 →
  MeshJac_tt_new EvalJacobians fes dim 0 nbElts ir_order = Fault OutOfBounds.
Proof.
  intros Hdim Hn Hlen. apply nil_length_inv in Hlen.
  unfold MeshJac_tt_new, MeshJac_ft_new. simpl. rewrite Hlen.
  destruct nbElts as [|n]; [lia |]. destruct dim as [|d]; [lia |].
  reflexivity.
Qed.
End MeshJacEdge.

(** ** The further statements at the concrete mesh *)

Lemma ReorderByVDim_transposes_witness :
  FESpace (mkGF (ex_fes byNODES) [10; 20; 11; 21; 12; 22; 13; 23]%Z)
    = FESpace ex_nodes_byNODES ∧
  Size (mkGF (ex_fes byNODES) [10; 20; 11; 21; 12; 22; 13; 23]%Z)
    = Size ex_nodes_byNODES ∧
  ∀ d v, d < 4 → v < 2 →
    ∃ x, read (GetData ex_nodes_byNODES) (d + v * 4) = Ok x ∧
         read [10; 20; 11; 21; 12; 22; 13; 23]%Z (d * 2 + v) = Ok x.
Proof.
  apply (ReorderByVDim_transposes ex_nodes_byNODES
           (mkGF (ex_fes byNODES) [10; 20; 11; 21; 12; 22; 13; 23]%Z)).
  reflexivity.
Defined.

Lemma ReorderByNodes_transposes_witness :
  FESpace ex_nodes_byNODES
    = FESpace (mkGF (ex_fes byNODES) [10; 20; 11; 21; 12; 22; 13; 23]%Z) ∧
  Size ex_nodes_byNODES
    = Size (mkGF (ex_fes byNODES) [10; 20; 11; 21; 12; 22; 13; 23]%Z) ∧
  ∀ j i, j < 4 → i < 2 →
    ∃ x, read [10; 20; 11; 21; 12; 22; 13; 23]%Z (j * 2 + i) = Ok x ∧
         read (GetData ex_nodes_byNODES) (j + i * 4) = Ok x.
Proof.
  apply (ReorderByNodes_transposes
           (mkGF (ex_fes byNODES) [10; 20; 11; 21; 12; 22; 13; 23]%Z)
           ex_nodes_byNODES).
  reflexivity.
Defined.

Lemma Reorder_scalar_identity_witness :
  ReorderByVDim ex_nodes_scalar = Ok ex_nodes_scalar ∧
  ReorderByNodes ex_nodes_scalar = Ok ex_nodes_scalar.
Proof. apply Reorder_scalar_identity; reflexivity. Defined.

Lemma Get_accounting_witness :
  ∃ w', ex_Get ex_world0 ex_ir = Ok w' ∧
    kernel_calls (log w') = S (kernel_calls (log ex_world0)) ∧
    allocations (log w') = allocations (log ex_world0) ++
      [New_KernelsGeometry; Allocate A_meshNodes [2; 4; 1];
       Allocate A_eMap [4; 1]; Allocate A_J [2; 2; 1; 1];
       Allocate A_invJ [2; 2; 1; 1]; Allocate A_detJ [1; 1]].
Proof.
  apply (Get_accounting ex_GeomNeedsUpdate ex_SetCurvature ex_GetSimplexMaps
           ex_rIniGeom ex_world0 ex_ir ex_nodes_byNODES).
  - reflexivity.
  - wf_by_computation.
Defined.

Lemma Get_on_null_cache_witness :
  ∃ w', ex_Get ex_world_bare ex_ir = Ok w' ∧ cfg w' = cfg ex_world_bare ∧
    log w' = log ex_world_bare ++ Get_events true false 2 4 1 1.
Proof.
  apply (Get_on_null_cache ex_GeomNeedsUpdate ex_SetCurvature ex_GetSimplexMaps
           ex_rIniGeom ex_world_bare ex_ir ex_nodes_byVDIM).
  - reflexivity.
  - reflexivity.
  - wf_by_computation.
Defined.

(** A state whose cache the stand-in [GeomNeedsUpdate] finds out of date:
    the configuration recorded sequence 0, the mesh is at sequence 1. *)
Lemma Get_on_stale_cache_witness :
  ∃ w', ex_Get (mkWorld (Some (mkGeom [1] [2] [3] [4] [5]))%Z 0%Z
                  (mkMesh [] 1%Z (Some ex_nodes_byNODES)) []) ex_ir = Ok w' ∧
    cfg w' = 1%Z ∧
    geom w' = Some (mkGeom [10; 20; 11; 21; 12; 22; 13; 23]%Z [0; 1; 2; 3]%Z
                      [10; 20; 11; 21; 12; 22; 13; 23]%Z
                      [10; 20; 11; 21; 12; 22; 13; 23]%Z []).
Proof.
  destruct (Get_on_stale_cache ex_GeomNeedsUpdate ex_SetCurvature
              ex_GetSimplexMaps ex_rIniGeom
              (mkWorld (Some (mkGeom [1] [2] [3] [4] [5]))%Z 0%Z
                 (mkMesh [] 1%Z (Some ex_nodes_byNODES)) [])
              ex_ir ex_nodes_byNODES (mkGeom [1] [2] [3] [4] [5])%Z
              eq_refl eq_refl eq_refl ltac:(wf_by_computation))
    as (w' & nodesV & mn & em & HGet & Hcfg & _).
  exists w'. split; [exact HGet |]. split; [exact Hcfg |].
  assert (Ok w' = ex_Get (mkWorld (Some (mkGeom [1] [2] [3] [4] [5]))%Z 0%Z
                            (mkMesh [] 1%Z (Some ex_nodes_byNODES)) []) ex_ir)
    as Heq by (symmetry; exact HGet).
  vm_compute in Heq. injection Heq as ->. reflexivity.
Defined.

Lemma Get_forgets_old_cache_witness :
  ∃ w1' w2',
    ex_Get ex_world0 ex_ir = Ok w1' ∧
    ex_Get ex_world_hit ex_ir = Ok w2' ∧
    geom w1' = geom w2' ∧ mesh w1' = mesh w2'.
Proof.
  apply (Get_forgets_old_cache ex_GeomNeedsUpdate ex_SetCurvature
           ex_GetSimplexMaps ex_rIniGeom ex_world0 ex_world_hit ex_ir
           ex_nodes_byNODES).
  - reflexivity.
  - reflexivity.
  - wf_by_computation.
  - fits_by_computation.
  - fits_by_computation.
Defined.

Lemma Get_keeps_mesh_with_nodes_witness :
  ∃ w' evs, ex_Get (initial_World 0%Z
                      (mkMesh [] 0%Z (Some ex_nodes_byVDIM))) ex_ir = Ok w' ∧
    mesh w' = mkMesh [] 0%Z (Some ex_nodes_byVDIM) ∧
    log w' = [] ++ evs ∧
    ∀ order discont space_dim ordering,
      Call_SetCurvature order discont space_dim ordering ∉ evs.
Proof.
  apply (Get_keeps_mesh_with_nodes ex_GeomNeedsUpdate ex_SetCurvature
           ex_GetSimplexMaps ex_rIniGeom
           (initial_World 0%Z (mkMesh [] 0%Z (Some ex_nodes_byVDIM)))
           ex_ir ex_nodes_byVDIM).
  - reflexivity.
  - wf_by_computation.
Defined.

Lemma Get_null_nodes_witness :
  Get ex_GeomNeedsUpdate ex_SetCurvature_none ex_GetSimplexMaps ex_rIniGeom
    ex_world_bare ex_ir = Fault NullDeref.
Proof. apply Get_null_nodes; reflexivity. Defined.

Lemma Get_then_Get_Sx_witness :
  ∃ w1 g1 w2 g2,
    ex_Get ex_world0 ex_ir = Ok w1 ∧ geom w1 = Some g1 ∧
    ex_Get_Sx w1 ex_ir2 [1; 2; 3; 4; 5; 6; 7; 8]%Z = Ok w2 ∧
    geom w2 = Some g2 ∧
    mesh w2 = mesh w1 ∧ cfg w2 = cfg w1 ∧
    eMap g2 = eMap g1 ∧
    meshNodes g2
      = ex_rNodeCopyByVDim 1 4 4 2 (eMap g1) [1; 2; 3; 4; 5; 6; 7; 8]%Z.
Proof.
  apply (Get_then_Get_Sx ex_GeomNeedsUpdate ex_SetCurvature ex_GetSimplexMaps
           ex_rIniGeom ex_rNodeCopyByVDim ex_world0 ex_ir ex_ir2
           [1; 2; 3; 4; 5; 6; 7; 8]%Z ex_nodes_byNODES).
  - reflexivity.
  - wf_by_computation.
  - fits_by_computation.
  - reflexivity.
  - reflexivity.
Defined.

Lemma Get_shapes_witness :
  ∃ w' g, ex_Get ex_world_hit ex_ir = Ok w' ∧ geom w' = Some g ∧
    length (meshNodes g) = 2 * 4 * 1 ∧
    eMap g = take (4 * 1) [0; 1; 2; 3]%Z.
Proof.
  apply (Get_shapes ex_GeomNeedsUpdate ex_SetCurvature ex_GetSimplexMaps
           ex_rIniGeom ex_world_hit ex_ir ex_nodes_byNODES).
  - reflexivity.
  - wf_by_computation.
  - fits_by_computation.
Defined.

Lemma Get_ordering_transparent_witness :
  ∃ w' g, ex_Get ex_world0 ex_ir = Ok w' ∧ geom w' = Some g ∧
    ∀ e d v, e < 1 → d < 4 → v < 2 →
      ∃ gid x, read [0; 1; 2; 3]%Z (d + 4 * e) = Ok gid ∧
        readZ (GetData ex_nodes_byNODES)
          (gid + Z.of_nat v * Z.of_nat 4)%Z = Ok x ∧
        read (meshNodes g) (v + 2 * (d + 4 * e)) = Ok x.
Proof.
  apply (Get_ordering_transparent ex_GeomNeedsUpdate ex_SetCurvature
           ex_GetSimplexMaps ex_rIniGeom ex_world0 ex_ir ex_nodes_byNODES).
  - reflexivity.
  - wf_by_computation.
  - reflexivity.
Defined.

Lemma Get_other_rule_witness :
  ∃ w1 w2 g1 g2,
    ex_Get ex_world0 ex_ir = Ok w1 ∧ ex_Get w1 ex_ir2 = Ok w2 ∧
    geom w1 = Some g1 ∧ geom w2 = Some g2 ∧
    allocations (log w2) = allocations (log w1) ∧
    log w2 = log w1 ++ [Call_GeomNeedsUpdate 0; Call_rIniGeom 2 4 1 1] ∧
    meshNodes g2 = meshNodes g1 ∧ eMap g2 = eMap g1 ∧
    (J g2, invJ g2, detJ g2) =
      ex_rIniGeom 2 4 1 1 (dofToQuadD (ex_GetSimplexMaps ex_fe ex_ir2))
        (meshNodes g1).
Proof.
  eexists _.
  destruct (Get_other_rule ex_GeomNeedsUpdate ex_SetCurvature ex_GetSimplexMaps
              ex_rIniGeom ex_world0 ex_ir ex_ir2 ex_nodes_byNODES _
              eq_refl ltac:(wf_by_computation) ltac:(fits_by_computation)
              eq_refl ex_first_Get eq_refl)
    as (w2 & g1 & g2 & H2 & Hrest).
  exists w2, g1, g2. split; [exact ex_first_Get |]. split; [exact H2 |].
  exact Hrest.
Defined.


Lemma MeshJac_linear_no_points_witness :
  MeshJac_tt_new ex_EvalJacobians (ex_fes byVDIM) 2 0 2 1 = Fault OutOfBounds.
Proof.
  apply (MeshJac_linear_no_points (double:=Z) ex_EvalJacobians).
  - lia.
  - lia.
  - reflexivity.
Defined.
